(** * Personal Task Organizer: the task state machine of [App.js]

    A shallow embedding of the React component [App] of
    [todo_frontend/src/App.js]: its state, its event handlers, the
    derived list [filteredTasks] and the two [localStorage] effects,
    followed by the properties of the task collection.

    Conventions.
    - A JavaScript string is the list of its UTF-16 code units ([N]);
      [.length] is [List.length].
    - A task [id] is an integral JavaScript number ([Date.now()] returns
      one), modelled as [Z]; [===] on ids is [Z.eqb].
    - [Date.now()] is read from the environment: the handler that calls
      it takes the clock reading as an argument.
    - [String.prototype.toLowerCase] follows the Unicode case tables,
      which are not part of the repository: the development is
      parameterised by it. *)

From Stdlib Require Import List ZArith NArith Lia Bool Ascii.
From Stdlib Require String.
Import String.StringSyntax.
From Stdlib Require DecimalFacts DecimalPos DecimalN DecimalZ.
Import ListNotations.

Open Scope Z_scope.

(** ** JavaScript strings *)

Definition jsstring := list N.

(** Code units of an ASCII literal, for readable examples. *)
Definition lit (s : String.string) : jsstring :=
  map N_of_ascii (String.list_ascii_of_string s).

Arguments lit s%_string_scope.

(** ECMAScript [WhiteSpace] and [LineTerminator] code points, the set
    stripped by [String.prototype.trim]. All lie in the BMP. *)
Definition isWhiteSpace (c : N) : bool :=
  ((c =? 9) || (c =? 10) || (c =? 11) || (c =? 12) || (c =? 13)
   || (c =? 32) || (c =? 160) || (c =? 5760)
   || ((8192 <=? c) && (c <=? 8202))
   || (c =? 8232) || (c =? 8233) || (c =? 8239) || (c =? 8287)
   || (c =? 12288) || (c =? 65279))%N.

Fixpoint trimStart (s : jsstring) : jsstring :=
  match s with
  | [] => []
  | c :: r => if isWhiteSpace c then trimStart r else s
  end.

Definition trimEnd (s : jsstring) : jsstring := rev (trimStart (rev s)).

(** [s.trim()] *)
Definition trim (s : jsstring) : jsstring := trimEnd (trimStart s).

Fixpoint startsWith (p s : jsstring) : bool :=
  match p, s with
  | [], _ => true
  | _ :: _, [] => false
  | a :: p', b :: s' => (a =? b)%N && startsWith p' s'
  end.

(** [s.includes(p)]: [p] occurs in [s] as a contiguous run of code units. *)
Fixpoint includes (s p : jsstring) : bool :=
  startsWith p s ||
  match s with
  | [] => false
  | _ :: s' => includes s' p
  end.

(** The value is truthy: a string is falsy exactly when it is empty. *)
Definition truthy (s : jsstring) : bool :=
  match s with [] => false | _ :: _ => true end.

(** A reference lower-casing on the ASCII range, used to run examples. *)
Definition asciiLower (s : jsstring) : jsstring :=
  map (fun c => if ((65 <=? c) && (c <=? 90))%N then (c + 32)%N else c) s.

(** ** The data model *)

(** Task structure: [{ id, text, completed }]. *)
Record Task := mkTask {
  id : Z;
  text : jsstring;
  completed : bool
}.

(** [{ ...t, text: v }] *)
Definition with_text (t : Task) (v : jsstring) : Task :=
  mkTask (id t) v (completed t).

(** [{ ...t, completed: v }] *)
Definition with_completed (t : Task) (v : bool) : Task :=
  mkTask (id t) (text t) v.

(** The three values the [filter] state takes: the buttons call
    [handleFilterChange] with ['all'], ['active'] or ['completed']. *)
Inductive Filter := FilterAll | FilterActive | FilterCompleted.

(** The [useState] cells of [App]. *)
Record AppState := mkApp {
  tasks : list Task;
  filter : Filter;
  search : jsstring;
  input : jsstring;
  editingId : option Z;
  editInput : jsstring
}.

(** The state of the first render. *)
Definition init : AppState :=
  mkApp [] FilterAll [] [] None [].

Definition setTasks (v : list Task) (st : AppState) : AppState :=
  mkApp v (filter st) (search st) (input st) (editingId st) (editInput st).

Definition setFilter (v : Filter) (st : AppState) : AppState :=
  mkApp (tasks st) v (search st) (input st) (editingId st) (editInput st).

Definition setSearch (v : jsstring) (st : AppState) : AppState :=
  mkApp (tasks st) (filter st) v (input st) (editingId st) (editInput st).

Definition setInput (v : jsstring) (st : AppState) : AppState :=
  mkApp (tasks st) (filter st) (search st) v (editingId st) (editInput st).

Definition setEditingId (v : option Z) (st : AppState) : AppState :=
  mkApp (tasks st) (filter st) (search st) (input st) v (editInput st).

Definition setEditInput (v : jsstring) (st : AppState) : AppState :=
  mkApp (tasks st) (filter st) (search st) (input st) (editingId st) v.

(** [editingId === i], where [editingId] is a number or [null]. *)
Definition editing (e : option Z) (i : Z) : bool :=
  match e with
  | Some j => j =? i
  | None => false
  end.

(** [t.id === editingId] *)
Definition id_is (t : Task) (e : option Z) : bool :=
  match e with
  | Some j => id t =? j
  | None => false
  end.

(** ** Handlers *)

(** [handleAddTask], with [now] the value [Date.now()] returns. *)
Definition handleAddTask (now : Z) (st : AppState) : AppState :=
  if (length (trim (input st)) =? 0)%nat then st
  else setInput []
         (setTasks (tasks st ++ [mkTask now (trim (input st)) false]) st).

(** [tasks.find(t => t.id === id)] *)
Definition find_task (i : Z) (l : list Task) : option Task :=
  find (fun t => id t =? i) l.

Definition handleEditTask (i : Z) (st : AppState) : AppState :=
  let st1 := setEditingId (Some i) st in
  setEditInput
    (match find_task i (tasks st) with Some t => text t | None => [] end)
    st1.

Definition handleUpdateTask (st : AppState) : AppState :=
  if (length (trim (editInput st)) =? 0)%nat then
    setEditInput [] (setEditingId None st)
  else
    setEditInput []
      (setEditingId None
         (setTasks
            (map (fun t => if id_is t (editingId st)
                           then with_text t (trim (editInput st))
                           else t)
                 (tasks st))
            st)).

Definition handleDeleteTask (i : Z) (st : AppState) : AppState :=
  let st1 := setTasks (List.filter (fun t => negb (id t =? i)) (tasks st)) st in
  if editing (editingId st) i
  then setEditInput [] (setEditingId None st1)
  else st1.

Definition handleToggleComplete (i : Z) (st : AppState) : AppState :=
  setTasks
    (map (fun t => if id t =? i
                   then with_completed t (negb (completed t))
                   else t)
         (tasks st))
    st.

Definition handleFilterChange (newFilter : Filter) (st : AppState) : AppState :=
  setFilter newFilter st.

(** [handleSearchChange], with [v] the event's [e.target.value]. *)
Definition handleSearchChange (v : jsstring) (st : AppState) : AppState :=
  setSearch v st.

(** The Escape key listener, installed only while [editingId] is truthy
    ([if (!editingId) return]): [null] and the number [0] are falsy. *)
Definition handleKey (st : AppState) : AppState :=
  match editingId st with
  | None => st
  | Some i => if i =? 0 then st else setEditInput [] (setEditingId None st)
  end.

(** ** The derived list *)

Section ViewFilter.

(** [String.prototype.toLowerCase] *)
Variable toLowerCase : jsstring -> jsstring.

Definition filteredTasks (st : AppState) : list Task :=
  let list := tasks st in
  let list :=
    match filter st with
    | FilterActive => List.filter (fun t => negb (completed t)) list
    | _ => list
    end in
  let list :=
    match filter st with
    | FilterCompleted => List.filter (fun t => completed t) list
    | _ => list
    end in
  if (0 <? length (trim (search st)))%nat then
    List.filter
      (fun t => includes (toLowerCase (text t))
                                  (toLowerCase (trim (search st))))
      list
  else list.

End ViewFilter.

(** ** JSON text

    [JSON.parse] and [JSON.stringify] as ECMA-262 defines them, on the
    code units of the text. A Number is tracked when it is written as an
    integer literal of magnitude at most 2^53 (every such integer is a
    double, held exactly; [-0] is identified with [0], as [===] does);
    any other Number is [NumOther], a value this model does not follow. *)

Inductive jsnum :=
| NumInt (z : Z)
| NumOther.

Unset Elimination Schemes.
Inductive json :=
| JNull
| JBool (b : bool)
| JNumber (n : jsnum)
| JString (s : jsstring)
| JArray (l : list json)
| JObject (l : list (jsstring * json)).
Set Elimination Schemes.

(** *** Numbers *)

Definition digit_of (c : N) : option (Decimal.uint -> Decimal.uint) :=
  (if c =? 48 then Some Decimal.D0 else
   if c =? 49 then Some Decimal.D1 else
   if c =? 50 then Some Decimal.D2 else
   if c =? 51 then Some Decimal.D3 else
   if c =? 52 then Some Decimal.D4 else
   if c =? 53 then Some Decimal.D5 else
   if c =? 54 then Some Decimal.D6 else
   if c =? 55 then Some Decimal.D7 else
   if c =? 56 then Some Decimal.D8 else
   if c =? 57 then Some Decimal.D9 else None)%N.

Definition isDigit (c : N) : bool := ((48 <=? c) && (c <=? 57))%N.

(** The longest run of decimal digits at the head of [s]. *)
Fixpoint read_digits (s : jsstring) : Decimal.uint * jsstring :=
  match s with
  | [] => (Decimal.Nil, [])
  | c :: r =>
    match digit_of c with
    | Some D => let (d, r') := read_digits r in (D d, r')
    | None => (Decimal.Nil, s)
    end
  end.

Fixpoint uint_codes (d : Decimal.uint) : jsstring :=
  match d with
  | Decimal.Nil => []
  | Decimal.D0 d => 48%N :: uint_codes d
  | Decimal.D1 d => 49%N :: uint_codes d
  | Decimal.D2 d => 50%N :: uint_codes d
  | Decimal.D3 d => 51%N :: uint_codes d
  | Decimal.D4 d => 52%N :: uint_codes d
  | Decimal.D5 d => 53%N :: uint_codes d
  | Decimal.D6 d => 54%N :: uint_codes d
  | Decimal.D7 d => 55%N :: uint_codes d
  | Decimal.D8 d => 56%N :: uint_codes d
  | Decimal.D9 d => 57%N :: uint_codes d
  end.

(** [Number::toString] of an integer below 10^21: its decimal digits. *)
Definition numberToString (z : Z) : jsstring :=
  match Z.to_int z with
  | Decimal.Pos d => uint_codes d
  | Decimal.Neg d => 45%N :: uint_codes d
  end.

Definition max_exact : Z := 2 ^ 53.

Definition int_value (neg : bool) (d : Decimal.uint) : jsnum :=
  let n := Z.of_uint d in
  if n <=? max_exact then NumInt (if neg then - n else n) else NumOther.

(** [. digit+], optional: [None] is a syntax error, the flag tells whether
    a fraction was read. *)
Definition parse_frac (s : jsstring) : option (bool * jsstring) :=
  match s with
  | c :: r =>
    if (c =? 46)%N then
      match r with
      | c1 :: _ => if isDigit c1 then Some (true, snd (read_digits r)) else None
      | [] => None
      end
    else Some (false, s)
  | [] => Some (false, s)
  end.

(** [(e|E) (+|-)? digit+], optional. *)
Definition parse_exp (s : jsstring) : option (bool * jsstring) :=
  match s with
  | c :: r =>
    if ((c =? 101) || (c =? 69))%N then
      let r1 := match r with
                | sg :: r' => if ((sg =? 43) || (sg =? 45))%N then r' else r
                | [] => r
                end in
      match r1 with
      | c1 :: _ => if isDigit c1 then Some (true, snd (read_digits r1)) else None
      | [] => None
      end
    else Some (false, s)
  | [] => Some (false, s)
  end.

(** A JSON number after its sign: [0], or a digit run that does not
    start with [0], then an optional fraction and exponent. *)
Definition parse_unsigned (neg : bool) (s : jsstring)
  : option (jsnum * jsstring) :=
  match s with
  | [] => None
  | c :: r =>
    let ip := if (c =? 48)%N then Some (Decimal.D0 Decimal.Nil, r)
              else if isDigit c then Some (read_digits s)
              else None in
    match ip with
    | None => None
    | Some (d, r1) =>
      match parse_frac r1 with
      | None => None
      | Some (hasfrac, r2) =>
        match parse_exp r2 with
        | None => None
        | Some (hasexp, r3) =>
          Some (if hasfrac || hasexp then NumOther else int_value neg d, r3)
        end
      end
    end
  end.

(** A JSON number: an optional minus sign, then the unsigned part. *)
Definition parse_number (s : jsstring) : option (jsnum * jsstring) :=
  match s with
  | c :: r => if (c =? 45)%N then parse_unsigned true r else parse_unsigned false s
  | [] => None
  end.

(** *** Strings *)

Definition isLeadingSurrogate (c : N) : bool := ((55296 <=? c) && (c <=? 56319))%N.
Definition isTrailingSurrogate (c : N) : bool := ((56320 <=? c) && (c <=? 57343))%N.

(** One lower-case hexadecimal digit. *)
Definition hex_code (n : N) : N := (if n <? 10 then 48 + n else 87 + n)%N.

(** [UnicodeEscape]: a backslash, [u] and four hexadecimal digits. *)
Definition unicodeEscape (c : N) : jsstring :=
  [92; 117; hex_code (c / 4096); hex_code ((c / 256) mod 16);
   hex_code ((c / 16) mod 16); hex_code (c mod 16)]%N.

(** The text [QuoteJSONString] emits for one code unit that is not part
    of a surrogate pair. *)
Definition quote_unit (c : N) : jsstring :=
  (if c =? 8 then [92; 98]
   else if c =? 9 then [92; 116]
   else if c =? 10 then [92; 110]
   else if c =? 12 then [92; 102]
   else if c =? 13 then [92; 114]
   else if c =? 34 then [92; 34]
   else if c =? 92 then [92; 92]
   else if (c <? 32) || isLeadingSurrogate c || isTrailingSurrogate c
        then unicodeEscape c
   else [c])%N.

(** [QuoteJSONString] between its quotes: a leading surrogate followed by
    a trailing one is a code point of its own and is copied; a lone
    surrogate is escaped. *)
Fixpoint quote_units (s : jsstring) : jsstring :=
  match s with
  | [] => []
  | c :: r =>
    if isLeadingSurrogate c then
      match r with
      | d :: r' =>
        if isTrailingSurrogate d then c :: d :: quote_units r'
        else unicodeEscape c ++ quote_units r
      | [] => unicodeEscape c
      end
    else quote_unit c ++ quote_units r
  end.

Definition quoteJSONString (s : jsstring) : jsstring :=
  34%N :: quote_units s ++ [34%N].

Definition hex_value (c : N) : option N :=
  (if (48 <=? c) && (c <=? 57) then Some (c - 48)
   else if (97 <=? c) && (c <=? 102) then Some (c - 87)
   else if (65 <=? c) && (c <=? 70) then Some (c - 55)
   else None)%N.

Definition hex4 (a b c d : N) : option N :=
  match hex_value a, hex_value b, hex_value c, hex_value d with
  | Some x, Some y, Some z, Some w => Some (x * 4096 + y * 256 + z * 16 + w)%N
  | _, _, _, _ => None
  end.

(** The character a single-letter escape stands for. *)
Definition simple_escape (e : N) : option N :=
  (if e =? 34 then Some 34
   else if e =? 92 then Some 92
   else if e =? 47 then Some 47
   else if e =? 98 then Some 8
   else if e =? 102 then Some 12
   else if e =? 110 then Some 10
   else if e =? 114 then Some 13
   else if e =? 116 then Some 9
   else None)%N.

Definition cons_unit (c : N) (k : option (jsstring * jsstring))
  : option (jsstring * jsstring) :=
  match k with
  | Some (x, r) => Some (c :: x, r)
  | None => None
  end.

(** A JSON string after its opening quote, up to and including the
    closing one. *)
Fixpoint parse_string (s : jsstring) : option (jsstring * jsstring) :=
  match s with
  | [] => None
  | c :: r =>
    if (c =? 34)%N then Some ([], r)
    else if (c =? 92)%N then
      match r with
      | [] => None
      | e :: r1 =>
        if (e =? 117)%N then
          match r1 with
          | h1 :: h2 :: h3 :: h4 :: r2 =>
            match hex4 h1 h2 h3 h4 with
            | Some u => cons_unit u (parse_string r2)
            | None => None
            end
          | _ => None
          end
        else
          match simple_escape e with
          | Some u => cons_unit u (parse_string r1)
          | None => None
          end
      end
    else if (c <? 32)%N then None
    else cons_unit c (parse_string r)
  end.

(** *** Values *)

Definition isJSONWhiteSpace (c : N) : bool :=
  ((c =? 9) || (c =? 10) || (c =? 13) || (c =? 32))%N.

Fixpoint skip_ws (s : jsstring) : jsstring :=
  match s with
  | [] => []
  | c :: r => if isJSONWhiteSpace c then skip_ws r else s
  end.

(** [s] without the prefix [p], when it starts with it. *)
Fixpoint strip (p s : jsstring) : option jsstring :=
  match p, s with
  | [], _ => Some s
  | _ :: _, [] => None
  | a :: p', b :: s' => if (a =? b)%N then strip p' s' else None
  end.

Definition keyword (p : jsstring) (v : json) (s : jsstring)
  : option (json * jsstring) :=
  match strip p s with
  | Some r => Some (v, r)
  | None => None
  end.

(** The recursive descent of [JSON.parse]. [fuel] bounds the number of
    nested calls; [JSON_parse] below provides enough of it for any
    text. [parse_elements] reads an array after its first bracket and
    [parse_members] an object after its first brace, both known to be
    non-empty. *)
Fixpoint parse_value (fuel : nat) (s : jsstring) : option (json * jsstring) :=
  match fuel with
  | O => None
  | S fuel' =>
    match skip_ws s with
    | [] => None
    | c :: r =>
      if (c =? 110)%N then keyword (lit "null") JNull (c :: r)
      else if (c =? 116)%N then keyword (lit "true") (JBool true) (c :: r)
      else if (c =? 102)%N then keyword (lit "false") (JBool false) (c :: r)
      else if (c =? 34)%N then
        match parse_string r with
        | Some (x, r') => Some (JString x, r')
        | None => None
        end
      else if (c =? 91)%N then
        match skip_ws r with
        | [] => None
        | c' :: r' =>
          if (c' =? 93)%N then Some (JArray [], r')
          else match parse_elements fuel' r with
               | Some (l, r'') => Some (JArray l, r'')
               | None => None
               end
        end
      else if (c =? 123)%N then
        match skip_ws r with
        | [] => None
        | c' :: r' =>
          if (c' =? 125)%N then Some (JObject [], r')
          else match parse_members fuel' r with
               | Some (l, r'') => Some (JObject l, r'')
               | None => None
               end
        end
      else
        match parse_number (c :: r) with
        | Some (n, r') => Some (JNumber n, r')
        | None => None
        end
    end
  end

with parse_elements (fuel : nat) (s : jsstring)
  : option (list json * jsstring) :=
  match fuel with
  | O => None
  | S fuel' =>
    match parse_value fuel' s with
    | None => None
    | Some (v, r) =>
      match skip_ws r with
      | [] => None
      | c :: r' =>
        if (c =? 93)%N then Some ([v], r')
        else if (c =? 44)%N then
          match parse_elements fuel' r' with
          | Some (l, r'') => Some (v :: l, r'')
          | None => None
          end
        else None
      end
    end
  end

with parse_members (fuel : nat) (s : jsstring)
  : option (list (jsstring * json) * jsstring) :=
  match fuel with
  | O => None
  | S fuel' =>
    match skip_ws s with
    | [] => None
    | q :: r0 =>
      if (q =? 34)%N then
        match parse_string r0 with
        | None => None
        | Some (k, r1) =>
          match skip_ws r1 with
          | [] => None
          | c1 :: r2 =>
            if (c1 =? 58)%N then
              match parse_value fuel' r2 with
              | None => None
              | Some (v, r3) =>
                match skip_ws r3 with
                | [] => None
                | c :: r' =>
                  if (c =? 125)%N then Some ([(k, v)], r')
                  else if (c =? 44)%N then
                    match parse_members fuel' r' with
                    | Some (l, r'') => Some ((k, v) :: l, r'')
                    | None => None
                    end
                  else None
                end
              end
            else None
          end
        end
      else None
    end
  end.

(** [JSON.parse(text)]: one value, white space around it, nothing else.
    [None] stands for the [SyntaxError] it throws. *)
Definition JSON_parse (s : jsstring) : option json :=
  match parse_value (2 * length s + 1) s with
  | Some (v, r) => match skip_ws r with [] => Some v | _ :: _ => None end
  | None => None
  end.

(** *** Task arrays as JSON text *)

(** [SerializeJSONObject] of a task: its own properties in creation
    order, [id], [text], [completed]. *)
Definition stringify_task (t : Task) : jsstring :=
  123%N :: quoteJSONString (lit "id") ++ 58%N :: numberToString (id t)
  ++ 44%N :: quoteJSONString (lit "text") ++ 58%N :: quoteJSONString (text t)
  ++ 44%N :: quoteJSONString (lit "completed") ++ 58%N
       :: (if completed t then lit "true" else lit "false")
  ++ [125%N].

Fixpoint join_commas (l : list jsstring) : jsstring :=
  match l with
  | [] => []
  | x :: r =>
    match r with
    | [] => x
    | _ :: _ => x ++ 44%N :: join_commas r
    end
  end.

(** [JSON.stringify(tasks)] *)
Definition JSON_stringify (l : list Task) : jsstring :=
  91%N :: join_commas (map stringify_task l) ++ [93%N].

Fixpoint str_eqb (a b : jsstring) : bool :=
  match a, b with
  | [], [] => true
  | x :: a', y :: b' => (x =? y)%N && str_eqb a' b'
  | _, _ => false
  end.

(** The value of property [k] of a parsed object: of two members with
    the same name the later one wins. *)
Definition get_prop (k : jsstring) (o : list (jsstring * json)) : option json :=
  fold_left (fun acc kv => if str_eqb (fst kv) k then Some (snd kv) else acc)
            o None.

Definition task_key (k : jsstring) : bool :=
  str_eqb k (lit "id") || str_eqb k (lit "text") || str_eqb k (lit "completed").

(** A parsed value read as a task record: an object with exactly the
    properties [id] (a tracked integer), [text] (a string) and
    [completed] (a boolean). *)
Definition as_task (v : json) : option Task :=
  match v with
  | JObject o =>
    if forallb (fun kv => task_key (fst kv)) o then
      match get_prop (lit "id") o, get_prop (lit "text") o,
            get_prop (lit "completed") o with
      | Some (JNumber (NumInt z)), Some (JString s), Some (JBool b) =>
        Some (mkTask z s b)
      | _, _, _ => None
      end
    else None
  | _ => None
  end.

Fixpoint all_tasks (l : list json) : option (list Task) :=
  match l with
  | [] => Some []
  | v :: r =>
    match as_task v, all_tasks r with
    | Some t, Some ts => Some (t :: ts)
    | _, _ => None
    end
  end.

Definition as_tasks (v : json) : option (list Task) :=
  match v with
  | JArray l => all_tasks l
  | _ => None
  end.

(** The value [JSON.parse] builds for the text [stringify_task] writes. *)
Definition json_of_task (t : Task) : json :=
  JObject [(lit "id", JNumber (NumInt (id t)));
           (lit "text", JString (text t));
           (lit "completed", JBool (completed t))].

(** ** The two [localStorage] effects *)

(** What running an effect leads to. [Throws] is the [SyntaxError] of
    [JSON.parse], which nothing catches. [Unmodelled] is a parsed value
    that is not an array of task records: [setTasks] receives it all the
    same, and the state leaves the typed model. *)
Inductive outcome (A : Type) :=
| Returns (a : A)
| Throws
| Unmodelled.

Arguments Returns {A} a.
Arguments Throws {A}.
Arguments Unmodelled {A}.

(** The mount effect, with [stored] the result of
    [localStorage.getItem('todo_tasks')] ([None] for [null]). *)
Definition loadEffect (stored : option jsstring) (st : AppState)
  : outcome AppState :=
  match stored with
  | None => Returns st
  | Some s =>
    if truthy s then
      match JSON_parse s with
      | None => Throws
      | Some v =>
        match as_tasks v with
        | Some l => Returns (setTasks l st)
        | None => Unmodelled
        end
      end
    else Returns st
  end.

(** The persist effect: the string handed to
    [localStorage.setItem('todo_tasks', _)]. *)
Definition persistEffect (st : AppState) : jsstring :=
  JSON_stringify (tasks st).

(** ** The TaskStore operations of the specification, as the code
       performs them *)

(** [load()]: the collection once the mount effect has run on the first
    render. *)
Definition load (stored : option jsstring) : outcome (list Task) :=
  match loadEffect stored init with
  | Returns st => Returns (tasks st)
  | Throws => Throws
  | Unmodelled => Unmodelled
  end.

(** [persist(tasks)]: the store content after the persist effect. *)
Definition persist (l : list Task) : option jsstring :=
  Some (persistEffect (setTasks l init)).

(** [create(rawText)]: the add input holds [rawText] and the form is
    submitted at clock reading [now]. *)
Definition create (now : Z) (rawText : jsstring) (st : AppState) : AppState :=
  handleAddTask now (setInput rawText st).

(** [rename(id, rawText)]: the row of [i] is in edit mode, its input
    holds [rawText] and the edit form is submitted. *)
Definition rename (i : Z) (rawText : jsstring) (st : AppState) : AppState :=
  handleUpdateTask (setEditInput rawText (setEditingId (Some i) st)).

Definition toggleComplete (i : Z) (st : AppState) : AppState :=
  handleToggleComplete i st.

Definition delete (i : Z) (st : AppState) : AppState :=
  handleDeleteTask i st.

(** [visible(tasks, mode, searchText)] *)
Definition visible (toLowerCase : jsstring -> jsstring)
  (l : list Task) (mode : Filter) (searchText : jsstring) : list Task :=
  filteredTasks toLowerCase (setSearch searchText (setFilter mode (setTasks l init))).

(** ** Task objects with any Number as id

    The handlers only ever store an id read from [Date.now()], an
    integer; the persistence effects accept whatever array they are
    given. For them a task object carries a Number that is an integer a
    double holds exactly, or one of the three non-finite values
    (fractional and larger doubles are floating point and not
    modelled), or [null], which is what a parsed property can be. *)

Inductive NumberValue :=
| Exact (z : Z)
| NotANumber
| PlusInfinity
| MinusInfinity.

Inductive IdValue :=
| IdNumber (n : NumberValue)
| IdNull.

Record TaskObject := mkObject {
  obj_id : IdValue;
  obj_text : jsstring;
  obj_completed : bool
}.

(** [SerializeJSONProperty] of the id: [Number::toString] for a finite
    Number, the text [null] for a non-finite Number and for [null]. *)
Definition stringify_id (v : IdValue) : jsstring :=
  match v with
  | IdNumber (Exact z) => numberToString z
  | IdNumber _ => lit "null"
  | IdNull => lit "null"
  end.

Definition stringify_object (o : TaskObject) : jsstring :=
  123%N :: quoteJSONString (lit "id") ++ 58%N :: stringify_id (obj_id o)
  ++ 44%N :: quoteJSONString (lit "text") ++ 58%N :: quoteJSONString (obj_text o)
  ++ 44%N :: quoteJSONString (lit "completed") ++ 58%N
       :: (if obj_completed o then lit "true" else lit "false")
  ++ [125%N].

(** [JSON.stringify(tasks)] on task objects. *)
Definition JSON_stringify_objects (l : list TaskObject) : jsstring :=
  91%N :: join_commas (map stringify_object l) ++ [93%N].





(** The persist effect on a collection of task objects. *)
Definition persist_objects (l : list TaskObject) : option jsstring :=
  Some (JSON_stringify_objects l).




(** ** Events *)

(** What the rendered page lets a user do. *)
Inductive Event :=
| InputChange (v : jsstring)       (* typing in the add input *)
| AddSubmit (now : Z)              (* submitting the add form *)
| EditClick (i : Z)
| EditInputChange (v : jsstring)   (* typing in the edit input *)
| UpdateSubmit
| DeleteClick (i : Z)
| ToggleClick (i : Z)
| FilterClick (f : Filter)
| SearchChange (v : jsstring)
| EscapeKey.

Definition step (e : Event) (st : AppState) : AppState :=
  match e with
  | InputChange v => setInput v st
  | AddSubmit now => handleAddTask now st
  | EditClick i => handleEditTask i st
  | EditInputChange v => setEditInput v st
  | UpdateSubmit => handleUpdateTask st
  | DeleteClick i => handleDeleteTask i st
  | ToggleClick i => handleToggleComplete i st
  | FilterClick f => handleFilterChange f st
  | SearchChange v => handleSearchChange v st
  | EscapeKey => handleKey st
  end.

(** The [maxLength] attributes: the browser hands [onChange] a value of
    at most 120 code units for the two task inputs and 60 for the search
    box. *)
Definition within_maxLength (e : Event) : bool :=
  match e with
  | InputChange v => (length v <=? 120)%nat
  | EditInputChange v => (length v <=? 120)%nat
  | SearchChange v => (length v <=? 60)%nat
  | _ => true
  end.

Definition run (es : list Event) (st : AppState) : AppState :=
  fold_left (fun s e => step e s) es st.

(** The states a session passes through after mounting on the
    collection [l0]. *)
Inductive reachable (l0 : list Task) : AppState -> Prop :=
| reach_mount : reachable l0 (setTasks l0 init)
| reach_step e st :
    reachable l0 st -> within_maxLength e = true -> reachable l0 (step e st).

(** ** Predicates of the claims *)

Definition ids (l : list Task) : list Z := map id l.

(** No white space at either end. *)
Definition trimmed (s : jsstring) : Prop :=
  match s with
  | [] => True
  | c :: _ => isWhiteSpace c = false /\ isWhiteSpace (last s c) = false
  end.

(** The text of a stored task: non-empty, trimmed, at most 120 units. *)
Definition text_ok (s : jsstring) : Prop :=
  s <> [] /\ trimmed s /\ (length s <= 120)%nat.

Definition texts_ok (l : list Task) : Prop :=
  Forall (fun t => text_ok (text t)) l.

Definition whitespace_only (s : jsstring) : Prop :=
  Forall (fun c => isWhiteSpace c = true) s.

(** Ids an integral double holds exactly. *)
Definition exact_id (t : Task) : Prop := Z.abs (id t) <= max_exact.

(** The conjunction [visible] is specified by. *)
Definition mode_keeps (mode : Filter) (t : Task) : bool :=
  match mode with
  | FilterAll => true
  | FilterActive => negb (completed t)
  | FilterCompleted => completed t
  end.

Definition search_keeps (toLowerCase : jsstring -> jsstring)
  (searchText : jsstring) (t : Task) : bool :=
  match trim searchText with
  | [] => true
  | _ :: _ => includes (toLowerCase (text t)) (toLowerCase (trim searchText))
  end.

(** The visible list as the specification words it: the tasks that pass
    the mode predicate and the search predicate, in collection order. *)
Definition visible_spec (toLowerCase : jsstring -> jsstring)
  (l : list Task) (mode : Filter) (searchText : jsstring) : list Task :=
  List.filter
    (fun t => mode_keeps mode t && search_keeps toLowerCase searchText t) l.

(** What the induction over events carries: the collection's texts are
    well formed and the two task inputs hold at most 120 units. *)
Definition text_inv (st : AppState) : Prop :=
  texts_ok (tasks st)
  /\ (length (input st) <= 120)%nat
  /\ (length (editInput st) <= 120)%nat.

(** The editor is closed: no row is in edit mode and the edit input is
    empty, as after the first render, a save or a cancel. *)
Definition idle (st : AppState) : Prop :=
  editingId st = None /\ editInput st = [].

(** The number of tasks that carry the id [i]. *)
Definition count_id (i : Z) (l : list Task) : nat :=
  length (List.filter (fun t => id t =? i) l).

(** The largest magnitude of an ECMAScript time value, in milliseconds:
    [Date.now()] returns an integer within it. *)
Definition time_value_max : Z := 8640000000000000.

(** The clock reading of a submit is a time value. *)
Definition clock_ok (e : Event) : bool :=
  match e with
  | AddSubmit now => Z.abs now <=? time_value_max
  | _ => true
  end.

(** The events whose handlers never call [setTasks]. *)
Definition view_event (e : Event) : bool :=
  match e with
  | InputChange _ | EditClick _ | EditInputChange _
  | FilterClick _ | SearchChange _ | EscapeKey => true
  | AddSubmit _ | UpdateSubmit | DeleteClick _ | ToggleClick _ => false
  end.

Definition is_add (e : Event) : bool :=
  match e with
  | AddSubmit _ => true
  | _ => false
  end.

(** ** Sample data *)

Definition tick : Z := 1700000000000.

Definition call_mom : jsstring := lit "Call mom".

(** The collection of the specification's scenario. *)
Definition scenario : list Task :=
  [mkTask 1 (lit "Buy milk") false; mkTask 2 (lit "Write report") true].

(** A collection in which the id 7 occurs twice. *)
Definition twins : list Task :=
  [mkTask 7 (lit "one") false; mkTask 8 (lit "two") true;
   mkTask 7 (lit "three") true].

Definition mounted (l : list Task) : AppState := setTasks l init.

(** A collection whose only task has an empty text. *)
Definition blank_task : list Task := [mkTask 1 [] false].

(** [s] between double quotes. *)
Definition quoted (s : jsstring) : jsstring := 34%N :: s ++ [34%N].

(** A store value: the JSON text of an array of one object, with [id]
    1, an empty [text] and [completed] false. *)
Definition stored_blank : jsstring :=
  lit "[{" ++ quoted (lit "id") ++ lit ":1,"
  ++ quoted (lit "text") ++ lit ":" ++ quoted []
  ++ lit "," ++ quoted (lit "completed") ++ lit ":false}]".

(** A text with a quote, a backslash, a line feed, a surrogate pair and
    a lone surrogate. *)
Definition awkward : list Task :=
  [mkTask (-3) [34; 92; 10; 55357; 56832; 55357; 65]%N true].

(** A store value that is not JSON. *)
Definition stored_garbage : jsstring := lit "{oops".

(** Typing [call_mom] and submitting, twice, within one clock tick. *)
Definition double_submit : list Event :=
  [InputChange call_mom; AddSubmit tick; InputChange call_mom; AddSubmit tick].


(** The scenario's collection as task objects. *)
Definition scenario_objects : list TaskObject :=
  [mkObject (IdNumber (Exact 1)) (lit "Buy milk") false;
   mkObject (IdNumber (Exact 2)) (lit "Write report") true].

(** A session: two adds at different clock readings, a toggle, an edit
    that is saved, and a delete. *)
Definition session : list Event :=
  [InputChange (lit " Water plants "); AddSubmit tick;
   InputChange (lit "Pay rent"); AddSubmit (tick + 1);
   ToggleClick tick;
   EditClick 1; EditInputChange (lit "Buy oat milk"); UpdateSubmit;
   DeleteClick 2].

(** * Properties *)

(** ** [trim] *)

Lemma trimStart_split (s : jsstring) :
  exists p, s = p ++ trimStart s /\ Forall (fun c => isWhiteSpace c = true) p.
Proof.
  induction s as [|c r [p [Hs Hp]]]; simpl.
  - exists []. split; [reflexivity | constructor].
  - destruct (isWhiteSpace c) eqn:Hc.
    + exists (c :: p). split.
      * simpl. f_equal. exact Hs.
      * constructor; assumption.
    + exists []. split; [reflexivity | constructor].
Qed.

Lemma trimStart_head (s : jsstring) (c : N) (r : jsstring) :
  trimStart s = c :: r -> isWhiteSpace c = false.
Proof.
  induction s as [|a s IH]; simpl; [discriminate|].
  destruct (isWhiteSpace a) eqn:Ha; [exact IH|].
  intros E. injection E as -> _. exact Ha.
Qed.

Lemma trimStart_length (s : jsstring) :
  (length (trimStart s) <= length s)%nat.
Proof.
  induction s as [|a s IH]; simpl; [lia|].
  destruct (isWhiteSpace a); simpl; lia.
Qed.

Lemma trimStart_blank (s : jsstring) :
  trimStart s = [] <-> whitespace_only s.
Proof.
  unfold whitespace_only. induction s as [|a s IH]; simpl.
  - split; [constructor | reflexivity].
  - destruct (isWhiteSpace a) eqn:Ha.
    + rewrite IH. split; intros H.
      * constructor; assumption.
      * inversion H; assumption.
    + split; [discriminate|]. intros H. inversion H; congruence.
Qed.

Lemma trim_length (s : jsstring) : (length (trim s) <= length s)%nat.
Proof.
  unfold trim, trimEnd. rewrite length_rev.
  pose proof (trimStart_length (rev (trimStart s))) as H1.
  rewrite length_rev in H1.
  pose proof (trimStart_length s). lia.
Qed.

Lemma last_rev_cons (A : Type) (l : list A) (x d : A) :
  last (rev (x :: l)) d = x.
Proof. simpl. apply last_last. Qed.

(** The result of [trim] starts and ends with a unit that is not white
    space. *)
Lemma trim_trimmed (s : jsstring) : trimmed (trim s).
Proof.
  unfold trimmed. destruct (trim s) as [|c r] eqn:E; [exact I|].
  unfold trim, trimEnd in E.
  destruct (trimStart (rev (trimStart s))) as [|b w] eqn:Ew.
  { discriminate. }
  pose proof (trimStart_head _ _ _ Ew) as Hb.
  assert (Hlast : last (c :: r) c = b).
  { rewrite <- E. apply last_rev_cons. }
  split.
  - (* the head of the result is the last unit of [w], the last unit of
       [rev (trimStart s)], the head of [trimStart s] *)
    destruct (trimStart_split (rev (trimStart s))) as [p [Hp _]].
    rewrite Ew in Hp.
    destruct (trimStart s) as [|u0 u] eqn:Eu.
    { destruct p; discriminate. }
    pose proof (trimStart_head _ _ _ Eu) as Hu0.
    assert (Hc : c = u0).
    { assert (H1 : rev (rev (u0 :: u)) = rev (p ++ b :: w)) by (f_equal; exact Hp).
      rewrite rev_involutive, rev_app_distr, E in H1.
      simpl in H1. injection H1 as H1 _. symmetry. exact H1. }
    rewrite Hc. exact Hu0.
  - rewrite Hlast. exact Hb.
Qed.

Lemma trim_blank (s : jsstring) : trim s = [] <-> whitespace_only s.
Proof.
  unfold trim, trimEnd. split.
  - intros H.
    assert (H1 : trimStart (rev (trimStart s)) = []).
    { destruct (trimStart (rev (trimStart s))) as [|b w]; [reflexivity|].
      simpl in H. destruct (rev w); discriminate. }
    apply trimStart_blank in H1.
    destruct (trimStart s) as [|c r] eqn:E.
    + apply trimStart_blank. exact E.
    + exfalso. pose proof (trimStart_head _ _ _ E) as Hc.
      unfold whitespace_only in H1. rewrite Forall_forall in H1.
      specialize (H1 c). rewrite H1 in Hc; [discriminate|].
      apply in_rev. rewrite rev_involutive. left. reflexivity.
  - intros H. apply trimStart_blank in H. rewrite H. reflexivity.
Qed.

Lemma trim_length_zero (s : jsstring) :
  (length (trim s) =? 0)%nat = true <-> trim s = [].
Proof.
  rewrite Nat.eqb_eq. split.
  - apply length_zero_iff_nil.
  - intros ->. reflexivity.
Qed.

(** ** The handlers, on the collection *)

Lemma tasks_handleAddTask (now : Z) (st : AppState) :
  tasks (handleAddTask now st) =
  match trim (input st) with
  | [] => tasks st
  | _ :: _ => tasks st ++ [mkTask now (trim (input st)) false]
  end.
Proof.
  unfold handleAddTask. destruct (trim (input st)); reflexivity.
Qed.

Lemma tasks_handleUpdateTask (st : AppState) :
  tasks (handleUpdateTask st) =
  match trim (editInput st) with
  | [] => tasks st
  | _ :: _ =>
    map (fun t => if id_is t (editingId st)
                  then with_text t (trim (editInput st)) else t)
        (tasks st)
  end.
Proof.
  unfold handleUpdateTask. destruct (trim (editInput st)); reflexivity.
Qed.

Lemma tasks_handleDeleteTask (i : Z) (st : AppState) :
  tasks (handleDeleteTask i st) =
  List.filter (fun t => negb (id t =? i)) (tasks st).
Proof.
  unfold handleDeleteTask. destruct (editing (editingId st) i); reflexivity.
Qed.

Lemma tasks_create (now : Z) (s : jsstring) (st : AppState) :
  tasks (create now s st) =
  match trim s with
  | [] => tasks st
  | _ :: _ => tasks st ++ [mkTask now (trim s) false]
  end.
Proof. unfold create. rewrite tasks_handleAddTask. reflexivity. Qed.

Lemma tasks_rename (i : Z) (s : jsstring) (st : AppState) :
  tasks (rename i s st) =
  match trim s with
  | [] => tasks st
  | _ :: _ =>
    map (fun t => if id t =? i then with_text t (trim s) else t) (tasks st)
  end.
Proof. unfold rename. rewrite tasks_handleUpdateTask. reflexivity. Qed.

(** ** Create *)

(** C3. For every collection (the [tasks] of any state [st]) and every
    string [s] whose trimmed form is non-empty and at most 120 units
    long, [create(s)] yields a collection one longer, whose first
    elements are the old collection unchanged and whose last element is
    a new task with text [trim s], free of surrounding white space, and
    [completed = false]. *)
Theorem create_appends_trimmed_task
  (st : AppState) (now : Z) (s : jsstring) :
  trim s <> [] ->
  (length (trim s) <= 120)%nat ->
  length (tasks (create now s st)) = S (length (tasks st))
  /\ firstn (length (tasks st)) (tasks (create now s st)) = tasks st
  /\ exists t,
       nth_error (tasks (create now s st)) (length (tasks st)) = Some t
       /\ tasks (create now s st) = tasks st ++ [t]
       /\ text t = trim s
       /\ trimmed (text t)
       /\ completed t = false.
Proof.
  intros Hne _. rewrite tasks_create.
  destruct (trim s) as [|c r] eqn:E; [congruence|]. rewrite <- E.
  split; [|split].
  - rewrite length_app. simpl. lia.
  - rewrite firstn_app, Nat.sub_diag, firstn_all. simpl. apply app_nil_r.
  - exists (mkTask now (trim s) false).
    split; [|split; [reflexivity|split; [reflexivity|split; [|reflexivity]]]].
    + rewrite nth_error_app2 by lia. rewrite Nat.sub_diag. reflexivity.
    + simpl. apply trim_trimmed.
Qed.

Lemma create_appends_trimmed_task_witness :
  trim (lit "  Call mom ") <> []
  /\ (length (trim (lit "  Call mom ")) <= 120)%nat
  /\ length (tasks (create tick (lit "  Call mom ") (mounted scenario))) = 3%nat
  /\ firstn 2 (tasks (create tick (lit "  Call mom ") (mounted scenario)))
     = scenario.
Proof.
  assert (H1 : trim (lit "  Call mom ") <> []) by (vm_compute; discriminate).
  assert (H2 : (length (trim (lit "  Call mom ")) <= 120)%nat)
    by (vm_compute; lia).
  destruct (create_appends_trimmed_task (mounted scenario) tick _ H1 H2)
    as [Hlen [Hfirst _]].
  split; [exact H1|]. split; [exact H2|]. split; [exact Hlen | exact Hfirst].
Defined.

(** C4. For every collection and every string [s] that is empty or
    consists of white space only, [create(s)] leaves the collection
    unchanged and [rename(id, s)], for any id, leaves the collection, so
    every task's text, unchanged: the edit is cancelled, not applied. *)
Theorem blank_text_changes_nothing
  (st : AppState) (now i : Z) (s : jsstring) :
  whitespace_only s ->
  tasks (create now s st) = tasks st
  /\ tasks (rename i s st) = tasks st
  /\ map text (tasks (rename i s st)) = map text (tasks st).
Proof.
  intros H. apply trim_blank in H.
  rewrite tasks_create, tasks_rename, H. repeat split.
Qed.

Lemma blank_text_changes_nothing_witness :
  whitespace_only (lit "  ")
  /\ tasks (create tick (lit "  ") (mounted [])) = []
  /\ tasks (rename 1 (lit "  ") (mounted scenario)) = scenario.
Proof.
  assert (H : whitespace_only (lit "  ")).
  { repeat constructor. }
  destruct (blank_text_changes_nothing (mounted []) tick 1 _ H) as [Hc _].
  destruct (blank_text_changes_nothing (mounted scenario) tick 1 _ H)
    as [_ [Hr _]].
  split; [exact H|]. split; [exact Hc | exact Hr].
Defined.

(** The scenario of the specification: renaming task 1 to the empty
    string leaves its text in place. *)
Example rename_empty_keeps_text :
  map text (tasks (rename 1 [] (mounted scenario)))
  = [lit "Buy milk"; lit "Write report"].
Proof. reflexivity. Qed.

(** ** Rename, toggle, delete *)

Lemma nth_error_map_some (A B : Type) (f : A -> B) (l : list A) (n : nat) (a : A) :
  nth_error l n = Some a -> nth_error (map f l) n = Some (f a).
Proof. intros H. rewrite nth_error_map, H. reflexivity. Qed.

Lemma map_unmatched (f : Task -> Task) (i : Z) (l : list Task) :
  (forall t, In t l -> id t <> i) ->
  map (fun t => if id t =? i then f t else t) l = l.
Proof.
  intros H. induction l as [|t l IH]; [reflexivity|].
  simpl. rewrite IH by (intros u Hu; apply H; right; exact Hu).
  destruct (Z.eqb_spec (id t) i) as [E|_]; [|reflexivity].
  exfalso. apply (H t); [left; reflexivity | exact E].
Qed.

(** C8. [rename(id, s)] with non-empty [trim s]: at every position, a
    task whose id matches has its text replaced by [trim s] and keeps its
    [id] and [completed]; any other task is unchanged; size and order
    (the sequence of ids) are unchanged; and when no task has that id the
    whole collection is unchanged. *)
Theorem rename_frame (st : AppState) (i : Z) (s : jsstring) :
  trim s <> [] ->
  length (tasks (rename i s st)) = length (tasks st)
  /\ map id (tasks (rename i s st)) = map id (tasks st)
  /\ map completed (tasks (rename i s st)) = map completed (tasks st)
  /\ (forall n t, nth_error (tasks st) n = Some t ->
        nth_error (tasks (rename i s st)) n =
        Some (if id t =? i then mkTask (id t) (trim s) (completed t) else t))
  /\ ((forall t, In t (tasks st) -> id t <> i) ->
        tasks (rename i s st) = tasks st).
Proof.
  intros Hne. rewrite tasks_rename.
  destruct (trim s) as [|c r] eqn:E; [congruence|]. rewrite <- E.
  split; [apply length_map|].
  split.
  { rewrite map_map. apply map_ext. intros t.
    destruct (id t =? i); reflexivity. }
  split.
  { rewrite map_map. apply map_ext. intros t.
    destruct (id t =? i); reflexivity. }
  split.
  - intros n t Hn.
    rewrite (nth_error_map_some _ _ _ _ _ _ Hn). reflexivity.
  - intros Hno. apply map_unmatched. exact Hno.
Qed.

Lemma rename_frame_witness :
  trim (lit " Buy oat milk ") <> []
  /\ tasks (rename 1 (lit " Buy oat milk ") (mounted scenario))
     = [mkTask 1 (lit "Buy oat milk") false; mkTask 2 (lit "Write report") true]
  /\ tasks (rename 3 (lit " Buy oat milk ") (mounted scenario)) = scenario.
Proof.
  assert (H : trim (lit " Buy oat milk ") <> []) by (vm_compute; discriminate).
  destruct (rename_frame (mounted scenario) 3 _ H) as [_ [_ [_ [_ Hno]]]].
  split; [exact H|]. split; [reflexivity|].
  apply Hno. intros t Ht.
  destruct Ht as [<-|[<-|[]]]; simpl; lia.
Defined.

Lemma toggle_twice_list (i : Z) (l : list Task) :
  map (fun t => if id t =? i then with_completed t (negb (completed t)) else t)
      (map (fun t => if id t =? i
                     then with_completed t (negb (completed t)) else t) l)
  = l.
Proof.
  rewrite map_map. rewrite <- (map_id l) at 2. apply map_ext.
  intros [j x c]. simpl.
  destruct (j =? i) eqn:E; simpl; [|rewrite E; reflexivity].
  rewrite E. unfold with_completed. simpl. rewrite negb_involutive.
  reflexivity.
Qed.

(** C9. [toggleComplete] is an involution: for every state and every id,
    two successive [toggleComplete(id)] give back the state they started
    from, so the targeted task has its original [completed] and no other
    field or task changed; a single call flips [completed] of the task
    with that id. *)
Theorem toggleComplete_involution (st : AppState) (i : Z) :
  toggleComplete i (toggleComplete i st) = st
  /\ (forall n t, nth_error (tasks st) n = Some t -> id t = i ->
        exists t', nth_error (tasks (toggleComplete i st)) n = Some t'
                   /\ completed t' = negb (completed t)).
Proof.
  split.
  - destruct st as [l f q inp e ei].
    unfold toggleComplete, handleToggleComplete, setTasks. simpl.
    rewrite toggle_twice_list. reflexivity.
  - intros n t Hn Hi.
    unfold toggleComplete, handleToggleComplete. simpl.
    rewrite (nth_error_map_some _ _ _ _ _ _ Hn).
    apply Z.eqb_eq in Hi. rewrite Hi.
    eexists. split; reflexivity.
Qed.

(** C10. The id-targeted operations act on every task whose id equals
    the argument: wherever such a task stands, [rename] sets its text
    and [toggleComplete] flips its [completed], and [delete] leaves no
    task with that id while keeping, in order, all the others. *)
Theorem id_operations_reach_every_match
  (st : AppState) (i : Z) (s : jsstring) :
  trim s <> [] ->
  (forall n t, nth_error (tasks st) n = Some t -> id t = i ->
     nth_error (tasks (rename i s st)) n = Some (with_text t (trim s)))
  /\ (forall n t, nth_error (tasks st) n = Some t -> id t = i ->
        nth_error (tasks (toggleComplete i st)) n
        = Some (with_completed t (negb (completed t))))
  /\ (forall t, In t (tasks (delete i st)) -> id t <> i)
  /\ tasks (delete i st) = List.filter (fun t => negb (id t =? i)) (tasks st).
Proof.
  intros Hne. split; [|split; [|split]].
  - intros n t Hn Hi. rewrite tasks_rename.
    destruct (trim s) as [|c r] eqn:E; [congruence|]. rewrite <- E.
    rewrite (nth_error_map_some _ _ _ _ _ _ Hn).
    apply Z.eqb_eq in Hi. rewrite Hi. reflexivity.
  - intros n t Hn Hi. unfold toggleComplete, handleToggleComplete. simpl.
    rewrite (nth_error_map_some _ _ _ _ _ _ Hn).
    apply Z.eqb_eq in Hi. rewrite Hi. reflexivity.
  - intros t Ht. unfold delete in Ht. rewrite tasks_handleDeleteTask in Ht.
    apply filter_In in Ht. destruct Ht as [_ Ht].
    apply negb_true_iff, Z.eqb_neq in Ht. exact Ht.
  - apply tasks_handleDeleteTask.
Qed.

Lemma id_operations_reach_every_match_witness :
  trim (lit "both") <> []
  /\ nth_error (tasks (rename 7 (lit "both") (mounted twins))) 0
     = Some (mkTask 7 (lit "both") false)
  /\ nth_error (tasks (rename 7 (lit "both") (mounted twins))) 2
     = Some (mkTask 7 (lit "both") true)
  /\ nth_error (tasks (toggleComplete 7 (mounted twins))) 0
     = Some (mkTask 7 (lit "one") true)
  /\ nth_error (tasks (toggleComplete 7 (mounted twins))) 2
     = Some (mkTask 7 (lit "three") false)
  /\ tasks (delete 7 (mounted twins)) = [mkTask 8 (lit "two") true].
Proof.
  assert (H : trim (lit "both") <> []) by (vm_compute; discriminate).
  destruct (id_operations_reach_every_match (mounted twins) 7 _ H)
    as [Hr [Ht [_ Hd]]].
  split; [exact H|].
  split; [exact (Hr 0%nat _ eq_refl eq_refl)|].
  split; [exact (Hr 2%nat _ eq_refl eq_refl)|].
  split; [exact (Ht 0%nat _ eq_refl eq_refl)|].
  split; [exact (Ht 2%nat _ eq_refl eq_refl)|].
  exact Hd.
Defined.

(** ** The visible list *)

Lemma filter_twice (A : Type) (f g : A -> bool) (l : list A) :
  List.filter g (List.filter f l) = List.filter (fun x => f x && g x) l.
Proof.
  induction l as [|a l IH]; [reflexivity|].
  simpl. destruct (f a); simpl; [destruct (g a)|]; rewrite IH; reflexivity.
Qed.

Lemma filter_all (A : Type) (l : list A) :
  List.filter (fun _ => true) l = l.
Proof.
  induction l as [|a l IH]; [reflexivity|]. simpl. rewrite IH. reflexivity.
Qed.

Lemma startsWith_spec (p s : jsstring) :
  startsWith p s = true <-> exists b, s = p ++ b.
Proof.
  revert s. induction p as [|a p IH]; intros s; simpl.
  - split; [intros _; exists s; reflexivity | reflexivity].
  - destruct s as [|c s].
    + split; [discriminate | intros [b Hb]; discriminate].
    + rewrite andb_true_iff, N.eqb_eq, IH. split.
      * intros [-> [b ->]]. exists b. reflexivity.
      * intros [b Hb]. injection Hb as -> ->. split; [reflexivity|].
        exists b. reflexivity.
Qed.

(** [includes] is the substring test. *)
Lemma includes_spec (s p : jsstring) :
  includes s p = true <-> exists a b, s = a ++ p ++ b.
Proof.
  induction s as [|c s IH].
  - simpl. rewrite orb_false_r, startsWith_spec. split.
    + intros [b Hb]. exists [], b. exact Hb.
    + intros [a [b Hab]]. destruct a; [|discriminate].
      exists b. exact Hab.
  - simpl. rewrite orb_true_iff, startsWith_spec, IH. split.
    + intros [[b Hb]|[a [b Hab]]].
      * exists [], b. exact Hb.
      * exists (c :: a), b. simpl. f_equal. exact Hab.
    + intros [a [b Hab]]. destruct a as [|x a].
      * left. exists b. exact Hab.
      * right. injection Hab as _ Hab. exists a, b. exact Hab.
Qed.

Section Visible.

Variable toLowerCase : jsstring -> jsstring.

(** C5. For every task list, every mode among all, active and completed,
    and every search string, [visible] returns exactly the tasks that
    satisfy the mode predicate and, when the trimmed search string is
    non-empty, whose lower-cased text contains the lower-cased trimmed
    search string as a substring, in the order of the input collection. *)
Theorem visible_filters_conjunctively
  (l : list Task) (mode : Filter) (searchText : jsstring) :
  visible toLowerCase l mode searchText
  = visible_spec toLowerCase l mode searchText
  /\ (forall t, In t (visible toLowerCase l mode searchText) <->
        In t l
        /\ mode_keeps mode t = true
        /\ (trim searchText <> [] ->
            exists a b, toLowerCase (text t)
                        = a ++ toLowerCase (trim searchText) ++ b)).
Proof.
  assert (E : visible toLowerCase l mode searchText
              = visible_spec toLowerCase l mode searchText).
  { unfold visible, visible_spec, filteredTasks, search_keeps. simpl.
    destruct (trim searchText) as [|c r] eqn:Es; simpl.
    - destruct mode; simpl.
      + symmetry. apply filter_all.
      + apply filter_ext. intros t. rewrite andb_true_r. reflexivity.
      + apply filter_ext. intros t. rewrite andb_true_r. reflexivity.
    - destruct mode; simpl.
      + reflexivity.
      + apply filter_twice.
      + apply filter_twice. }
  split; [exact E|].
  intros t. rewrite E. unfold visible_spec.
  rewrite filter_In, andb_true_iff. unfold search_keeps.
  destruct (trim searchText) as [|c r] eqn:Es.
  - split.
    + intros [Hin [Hm _]]. split; [exact Hin|]. split; [exact Hm|].
      intros Hne. congruence.
    + intros [Hin [Hm _]]. split; [exact Hin|]. split; [exact Hm|reflexivity].
  - rewrite includes_spec. split.
    + intros [Hin [Hm Hs]]. split; [exact Hin|]. split; [exact Hm|].
      intros _. exact Hs.
    + intros [Hin [Hm Hs]]. split; [exact Hin|]. split; [exact Hm|].
      apply Hs. discriminate.
Qed.

End Visible.

(** The scenario of the specification: in mode all, the search text
    [report] leaves the one task that contains it. *)
Example visible_scenario :
  visible asciiLower scenario FilterAll (lit "report")
  = [mkTask 2 (lit "Write report") true].
Proof. reflexivity. Qed.

Example visible_search_ignores_case :
  visible asciiLower scenario FilterActive (lit "  MILK ")
  = [mkTask 1 (lit "Buy milk") false].
Proof. reflexivity. Qed.

(** ** JSON text: numbers *)

Lemma digit_of_isDigit (c : N) :
  digit_of c = None <-> isDigit c = false.
Proof.
  unfold digit_of, isDigit.
  repeat match goal with
         | |- context [(c =? ?k)%N] => destruct (N.eqb_spec c k); [subst c; simpl; split; discriminate|]
         end.
  split; [|reflexivity]. intros _.
  rewrite andb_false_iff, N.leb_gt, N.leb_gt. lia.
Qed.

(** A digit run followed by something that is not a digit is read back
    whole. *)
Lemma read_digits_uint_codes (d : Decimal.uint) (c : N) (rest : jsstring) :
  isDigit c = false ->
  read_digits (uint_codes d ++ c :: rest) = (d, c :: rest).
Proof.
  intros Hc. apply digit_of_isDigit in Hc.
  induction d; simpl; try rewrite IHd; try reflexivity.
  rewrite Hc. reflexivity.
Qed.

(** The decimal digits of a positive number do not start with [0]. *)
Lemma to_uint_head (p : positive) :
  exists c r, uint_codes (Pos.to_uint p) = c :: r
              /\ isDigit c = true /\ (c =? 48)%N = false.
Proof.
  pose proof (DecimalPos.Unsigned.to_of (Pos.to_uint p)) as H.
  rewrite DecimalPos.Unsigned.of_to in H. simpl in H.
  pose proof (DecimalPos.Unsigned.to_uint_nonnil p) as Hnil.
  pose proof (DecimalPos.Unsigned.to_uint_nonzero p) as Hz.
  assert (Hh : Pos.to_uint p = Decimal.nzhead (Pos.to_uint p)).
  { rewrite H at 1. unfold Decimal.unorm.
    destruct (Decimal.nzhead (Pos.to_uint p)) eqn:E; try reflexivity.
    exfalso. apply Hz. rewrite H. unfold Decimal.unorm. rewrite E.
    reflexivity. }
  destruct (Pos.to_uint p) as [|d|d|d|d|d|d|d|d|d|d] eqn:E;
    try (eexists; eexists; split; [reflexivity | split; reflexivity]).
  - congruence.
  - exfalso. symmetry in Hh. exact (DecimalFacts.nzhead_nonzero _ _ Hh).
Qed.

Lemma parse_frac_comma (rest : jsstring) :
  parse_frac (44%N :: rest) = Some (false, 44%N :: rest).
Proof. reflexivity. Qed.

Lemma parse_exp_comma (rest : jsstring) :
  parse_exp (44%N :: rest) = Some (false, 44%N :: rest).
Proof. reflexivity. Qed.

Lemma int_value_exact (neg : bool) (d : Decimal.uint) :
  Z.of_uint d <= max_exact ->
  int_value neg d = NumInt (if neg then - Z.of_uint d else Z.of_uint d).
Proof.
  intros H. unfold int_value. apply Z.leb_le in H. rewrite H. reflexivity.
Qed.

Lemma of_uint_to_uint (p : positive) : Z.of_uint (Pos.to_uint p) = Z.pos p.
Proof.
  unfold Z.of_uint. rewrite DecimalPos.Unsigned.of_to. reflexivity.
Qed.

Lemma parse_unsigned_to_uint (neg : bool) (p : positive) (rest : jsstring) :
  Z.pos p <= max_exact ->
  parse_unsigned neg (uint_codes (Pos.to_uint p) ++ 44%N :: rest)
  = Some (NumInt (if neg then Z.neg p else Z.pos p), 44%N :: rest).
Proof.
  intros Hp. destruct (to_uint_head p) as [c [r [E [Hd H0]]]].
  unfold parse_unsigned.
  destruct (uint_codes (Pos.to_uint p) ++ 44%N :: rest) as [|c' r'] eqn:Es.
  { rewrite E in Es. discriminate. }
  assert (Hc : c' = c) by (rewrite E in Es; injection Es as Es _; congruence).
  subst c'. rewrite H0, Hd. cbv zeta.
  rewrite <- Es, read_digits_uint_codes by reflexivity.
  rewrite parse_frac_comma, parse_exp_comma. simpl orb. cbv iota.
  rewrite int_value_exact by (rewrite of_uint_to_uint; exact Hp).
  rewrite of_uint_to_uint. destruct neg; reflexivity.
Qed.

Lemma parse_number_positive (neg : bool) (p : positive) (rest : jsstring) :
  Z.pos p <= max_exact ->
  parse_number ((if neg then [45%N] else []) ++
                uint_codes (Pos.to_uint p) ++ 44%N :: rest)
  = Some (NumInt (if neg then Z.neg p else Z.pos p), 44%N :: rest).
Proof.
  intros Hp. destruct neg.
  - simpl. apply parse_unsigned_to_uint. exact Hp.
  - simpl app. unfold parse_number.
    destruct (to_uint_head p) as [c [r [E [Hd _]]]].
    destruct (uint_codes (Pos.to_uint p) ++ 44%N :: rest) as [|c' r'] eqn:Es.
    { rewrite E in Es. discriminate. }
    assert (Hc : c' = c) by (rewrite E in Es; injection Es as Es _; congruence).
    subst c'.
    assert (Hm : (c =? 45)%N = false).
    { unfold isDigit in Hd. apply andb_true_iff in Hd.
      destruct Hd as [Hd _]. apply N.leb_le in Hd. apply N.eqb_neq. lia. }
    rewrite Hm, <- Es. apply parse_unsigned_to_uint. exact Hp.
Qed.

(** [numberToString] followed by a comma is parsed back to the number,
    for every integer a double holds exactly. *)
Lemma parse_number_numberToString (z : Z) (rest : jsstring) :
  Z.abs z <= max_exact ->
  parse_number (numberToString z ++ 44%N :: rest)
  = Some (NumInt z, 44%N :: rest).
Proof.
  intros Hz. unfold numberToString. destruct z as [|p|p]; simpl Z.to_int.
  - reflexivity.
  - apply (parse_number_positive false p rest). exact Hz.
  - apply (parse_number_positive true p rest). exact Hz.
Qed.

(** The first unit of a number's text: a minus sign or a digit. *)
Lemma numberToString_head (z : Z) :
  exists c r, numberToString z = c :: r
              /\ ((c =? 45)%N = true \/ isDigit c = true).
Proof.
  unfold numberToString. destruct z as [|p|p]; simpl Z.to_int.
  - exists 48%N, []. split; [reflexivity | right; reflexivity].
  - destruct (to_uint_head p) as [c [r [E [Hd _]]]].
    exists c, r. split; [exact E | right; exact Hd].
  - eexists; eexists. split; [reflexivity | left; reflexivity].
Qed.

(** ** JSON text: strings *)

Lemma hex_value_hex_code (n : N) :
  (n < 16)%N -> hex_value (hex_code n) = Some n.
Proof.
  intros H.
  assert (E : In n [0; 1; 2; 3; 4; 5; 6; 7; 8; 9; 10; 11; 12; 13; 14; 15]%N).
  { simpl. lia. }
  simpl in E.
  repeat (destruct E as [<-|E]; [reflexivity|]). destruct E.
Qed.

Lemma hex4_digits (c : N) :
  (c < 65536)%N ->
  hex4 (hex_code (c / 4096)) (hex_code ((c / 256) mod 16))
       (hex_code ((c / 16) mod 16)) (hex_code (c mod 16)) = Some c.
Proof.
  intros H. unfold hex4.
  assert (H1 : (c / 4096 < 16)%N) by (apply N.Div0.div_lt_upper_bound; lia).
  assert (H2 : ((c / 256) mod 16 < 16)%N) by (apply N.mod_lt; lia).
  assert (H3 : ((c / 16) mod 16 < 16)%N) by (apply N.mod_lt; lia).
  assert (H4 : (c mod 16 < 16)%N) by (apply N.mod_lt; lia).
  rewrite !hex_value_hex_code by assumption.
  f_equal.
  pose proof (N.div_mod c 16) as D1.
  pose proof (N.div_mod (c / 16) 16) as D2.
  pose proof (N.div_mod (c / 256) 16) as D3.
  assert (E1 : (c / 16 / 16 = c / 256)%N)
    by (rewrite N.Div0.div_div; reflexivity).
  assert (E2 : (c / 256 / 16 = c / 4096)%N)
    by (rewrite N.Div0.div_div; reflexivity).
  assert (E3 : ((c / 4096) mod 16 = c / 4096)%N)
    by (apply N.mod_small; exact H1).
  rewrite E1 in D2. rewrite E2 in D3.
  specialize (D1 ltac:(lia)). specialize (D2 ltac:(lia)).
  specialize (D3 ltac:(lia)). lia.
Qed.

Lemma parse_string_unicodeEscape (c : N) (rest : jsstring) :
  (c < 65536)%N ->
  parse_string (unicodeEscape c ++ rest) = cons_unit c (parse_string rest).
Proof.
  intros H. unfold unicodeEscape. simpl.
  rewrite hex4_digits by exact H. reflexivity.
Qed.

Lemma parse_string_plain (c : N) (rest : jsstring) :
  (c =? 34)%N = false -> (c =? 92)%N = false -> (c <? 32)%N = false ->
  parse_string (c :: rest) = cons_unit c (parse_string rest).
Proof. intros H1 H2 H3. simpl. rewrite H1, H2, H3. reflexivity. Qed.

Lemma parse_string_quote_unit (c : N) (rest : jsstring) :
  parse_string (quote_unit c ++ rest) = cons_unit c (parse_string rest).
Proof.
  unfold quote_unit.
  repeat match goal with
         | |- context [if (c =? ?k)%N then _ else _] =>
           destruct (N.eqb_spec c k) as [->|?]; [reflexivity|]
         end.
  destruct ((c <? 32)%N || isLeadingSurrogate c || isTrailingSurrogate c) eqn:E.
  - apply parse_string_unicodeEscape.
    unfold isLeadingSurrogate, isTrailingSurrogate in E.
    rewrite !orb_true_iff, !andb_true_iff, N.ltb_lt, !N.leb_le in E. lia.
  - rewrite !orb_false_iff in E. destruct E as [[E _] _].
    apply parse_string_plain; [apply N.eqb_neq; assumption ..| exact E].
Qed.

Lemma surrogate_plain (c : N) :
  isLeadingSurrogate c = true \/ isTrailingSurrogate c = true ->
  (c =? 34)%N = false /\ (c =? 92)%N = false /\ (c <? 32)%N = false.
Proof.
  unfold isLeadingSurrogate, isTrailingSurrogate.
  rewrite !andb_true_iff, !N.leb_le, !N.eqb_neq, N.ltb_ge. lia.
Qed.

Lemma quote_units_cons (c : N) (r : jsstring) :
  quote_units (c :: r) =
  if isLeadingSurrogate c then
    match r with
    | d :: r' =>
      if isTrailingSurrogate d then c :: d :: quote_units r'
      else unicodeEscape c ++ quote_units r
    | [] => unicodeEscape c
    end
  else quote_unit c ++ quote_units r.
Proof. reflexivity. Qed.

(** What [QuoteJSONString] writes between the quotes, followed by a
    closing quote, is read back as the original string. *)
Lemma parse_string_quote_units (s rest : jsstring) :
  parse_string (quote_units s ++ 34%N :: rest) = Some (s, rest).
Proof.
  remember (length s) as n eqn:Hn.
  revert s Hn. induction n as [n IH] using lt_wf_ind. intros s Hn.
  destruct s as [|c r]; [reflexivity|].
  rewrite quote_units_cons. destruct (isLeadingSurrogate c) eqn:Hc.
  - destruct r as [|d r'].
    + rewrite parse_string_unicodeEscape; [reflexivity|].
      unfold isLeadingSurrogate in Hc.
      rewrite andb_true_iff, !N.leb_le in Hc. lia.
    + destruct (isTrailingSurrogate d) eqn:Hd.
      * destruct (surrogate_plain c (or_introl Hc)) as [A1 [A2 A3]].
        destruct (surrogate_plain d (or_intror Hd)) as [B1 [B2 B3]].
        simpl app.
        rewrite (parse_string_plain c _ A1 A2 A3).
        rewrite (parse_string_plain d _ B1 B2 B3).
        rewrite (IH (length r')); [reflexivity | simpl in Hn; lia | reflexivity].
      * rewrite <- app_assoc. rewrite parse_string_unicodeEscape.
        2:{ unfold isLeadingSurrogate in Hc.
            rewrite andb_true_iff, !N.leb_le in Hc. lia. }
        rewrite (IH (length (d :: r'))); [reflexivity | simpl in Hn |- *; lia | reflexivity].
  - rewrite <- app_assoc, parse_string_quote_unit.
    rewrite (IH (length r)); [reflexivity | simpl in Hn; lia | reflexivity].
Qed.

Lemma parse_string_quoteJSONString (s rest : jsstring) :
  exists body, quoteJSONString s ++ rest = 34%N :: body
               /\ parse_string body = Some (s, rest).
Proof.
  exists (quote_units s ++ 34%N :: rest). split.
  - unfold quoteJSONString. simpl. rewrite <- app_assoc. reflexivity.
  - apply parse_string_quote_units.
Qed.

(** ** JSON text: values *)

Lemma skip_ws_fixed (c : N) (r : jsstring) :
  isJSONWhiteSpace c = false -> skip_ws (c :: r) = c :: r.
Proof. intros H. simpl. rewrite H. reflexivity. Qed.

Lemma parse_value_string (f : nat) (s rest : jsstring) :
  parse_value (S f) (quoteJSONString s ++ rest) = Some (JString s, rest).
Proof.
  destruct (parse_string_quoteJSONString s rest) as [body [E Hb]].
  rewrite E. cbn [parse_value].
  rewrite skip_ws_fixed by reflexivity.
  change (34 =? 110)%N with false. change (34 =? 116)%N with false.
  change (34 =? 102)%N with false. change (34 =? 34)%N with true.
  cbv iota. rewrite Hb. reflexivity.
Qed.

Lemma parse_value_true (f : nat) (rest : jsstring) :
  parse_value (S f) (lit "true" ++ rest) = Some (JBool true, rest).
Proof. reflexivity. Qed.

Lemma parse_value_false (f : nat) (rest : jsstring) :
  parse_value (S f) (lit "false" ++ rest) = Some (JBool false, rest).
Proof. reflexivity. Qed.

Lemma parse_value_number (f : nat) (z : Z) (rest : jsstring) :
  Z.abs z <= max_exact ->
  parse_value (S f) (numberToString z ++ 44%N :: rest)
  = Some (JNumber (NumInt z), 44%N :: rest).
Proof.
  intros Hz. pose proof (parse_number_numberToString z rest Hz) as Hp.
  destruct (numberToString_head z) as [c [r [E Hc]]].
  rewrite E in Hp |- *. simpl app in Hp |- *.
  assert (Hb : (c = 45 \/ 48 <= c <= 57)%N).
  { destruct Hc as [Hc|Hc].
    - left. apply N.eqb_eq. exact Hc.
    - right. unfold isDigit in Hc.
      rewrite andb_true_iff, !N.leb_le in Hc. exact Hc. }
  cbn [parse_value].
  rewrite skip_ws_fixed.
  2:{ unfold isJSONWhiteSpace. rewrite !orb_false_iff, !N.eqb_neq. lia. }
  repeat match goal with
         | |- context [if (c =? ?k)%N then _ else _] =>
           destruct (N.eqb_spec c k) as [?|_]; [exfalso; lia|]
         end.
  rewrite Hp. reflexivity.
Qed.

(** One member of an object, followed by [c]: a comma or the closing
    brace. *)
Lemma parse_members_step
  (f : nat) (k vtext : jsstring) (v : json) (c : N) (rest : jsstring) :
  parse_value f (vtext ++ c :: rest) = Some (v, c :: rest) ->
  isJSONWhiteSpace c = false ->
  parse_members (S f) (quoteJSONString k ++ 58%N :: vtext ++ c :: rest)
  = if (c =? 125)%N then Some ([(k, v)], rest)
    else if (c =? 44)%N then
      match parse_members f rest with
      | Some (l, r) => Some ((k, v) :: l, r)
      | None => None
      end
    else None.
Proof.
  intros Hv Hc.
  destruct (parse_string_quoteJSONString k (58%N :: vtext ++ c :: rest))
    as [body [E Hb]].
  rewrite E. cbn [parse_members].
  rewrite skip_ws_fixed by reflexivity.
  change (34 =? 34)%N with true. cbv iota.
  rewrite Hb. rewrite skip_ws_fixed by reflexivity.
  change (58 =? 58)%N with true. cbv iota.
  rewrite Hv. rewrite skip_ws_fixed by exact Hc. reflexivity.
Qed.

(** One element of an array, followed by [c]: a comma or the closing
    bracket. *)
Lemma parse_elements_step
  (f : nat) (etext : jsstring) (v : json) (c : N) (rest : jsstring) :
  parse_value f (etext ++ c :: rest) = Some (v, c :: rest) ->
  isJSONWhiteSpace c = false ->
  parse_elements (S f) (etext ++ c :: rest)
  = if (c =? 93)%N then Some ([v], rest)
    else if (c =? 44)%N then
      match parse_elements f rest with
      | Some (l, r) => Some (v :: l, r)
      | None => None
      end
    else None.
Proof.
  intros Hv Hc. cbn [parse_elements].
  rewrite Hv. rewrite skip_ws_fixed by exact Hc. reflexivity.
Qed.

Lemma parse_value_object (f : nat) (k rest : jsstring) :
  parse_value (S f) (123%N :: quoteJSONString k ++ rest)
  = match parse_members f (quoteJSONString k ++ rest) with
    | Some (l, r) => Some (JObject l, r)
    | None => None
    end.
Proof. reflexivity. Qed.

Lemma stringify_task_app (t : Task) (rest : jsstring) :
  stringify_task t ++ rest =
  123%N :: quoteJSONString (lit "id") ++ 58%N :: numberToString (id t)
  ++ 44%N :: quoteJSONString (lit "text") ++ 58%N :: quoteJSONString (text t)
  ++ 44%N :: quoteJSONString (lit "completed") ++ 58%N
       :: (if completed t then lit "true" else lit "false")
  ++ 125%N :: rest.
Proof.
  unfold stringify_task.
  repeat (rewrite <- ?app_comm_cons, <- ?app_assoc). reflexivity.
Qed.

(** The text of one task is parsed back to the task's JSON value. *)
Lemma parse_value_task (f : nat) (t : Task) (rest : jsstring) :
  exact_id t ->
  parse_value (5 + f) (stringify_task t ++ rest) = Some (json_of_task t, rest).
Proof.
  intros Ht. rewrite stringify_task_app.
  change (5 + f)%nat with (S (S (S (S (S f))))).
  rewrite parse_value_object.
  rewrite (parse_members_step _ _ _ (JNumber (NumInt (id t))))
    by (first [apply parse_value_number; exact Ht | reflexivity]).
  change (44 =? 125)%N with false. change (44 =? 44)%N with true. cbv iota.
  rewrite (parse_members_step _ _ _ (JString (text t)))
    by (first [apply parse_value_string | reflexivity]).
  change (44 =? 125)%N with false. change (44 =? 44)%N with true. cbv iota.
  rewrite (parse_members_step _ _ _ (JBool (completed t)))
    by (first [destruct (completed t); reflexivity | reflexivity]).
  reflexivity.
Qed.

(** ** Persist, then load *)

Lemma join_commas_cons (x y : jsstring) (l : list jsstring) :
  join_commas (x :: y :: l) = x ++ 44%N :: join_commas (y :: l).
Proof. reflexivity. Qed.

Lemma parse_elements_tasks (l : list Task) :
  forall (t : Task) (f : nat) (rest : jsstring),
    Forall exact_id (t :: l) ->
    parse_elements (6 + length l + f)
      (join_commas (map stringify_task (t :: l)) ++ 93%N :: rest)
    = Some (map json_of_task (t :: l), rest).
Proof.
  induction l as [|t' l IH]; intros t f rest Hall.
  - simpl map. simpl join_commas.
    change (6 + length (@nil Task) + f)%nat with (S (5 + f)).
    rewrite (parse_elements_step _ _ (json_of_task t)).
    + reflexivity.
    + apply parse_value_task. inversion Hall; assumption.
    + reflexivity.
  - inversion Hall as [|? ? Ht Hl]; subst.
    change (map stringify_task (t :: t' :: l))
      with (stringify_task t :: stringify_task t' :: map stringify_task l).
    rewrite join_commas_cons, <- app_assoc, <- app_comm_cons.
    change (6 + length (t' :: l) + f)%nat with (S (5 + (S (length l) + f))).
    rewrite (parse_elements_step _ _ (json_of_task t)).
    + change (44 =? 93)%N with false. change (44 =? 44)%N with true. cbv iota.
      change (stringify_task t' :: map stringify_task l)
        with (map stringify_task (t' :: l)).
      replace (5 + (S (length l) + f))%nat with (6 + length l + f)%nat by lia.
      rewrite (IH t' f rest Hl). reflexivity.
    + apply parse_value_task. exact Ht.
    + reflexivity.
Qed.

Lemma as_task_json_of_task (t : Task) : as_task (json_of_task t) = Some t.
Proof. destruct t as [i s c]. reflexivity. Qed.

Lemma all_tasks_json_of_task (l : list Task) :
  all_tasks (map json_of_task l) = Some l.
Proof.
  induction l as [|t l IH]; [reflexivity|].
  change (map json_of_task (t :: l)) with (json_of_task t :: map json_of_task l).
  cbn [all_tasks]. rewrite as_task_json_of_task, IH. reflexivity.
Qed.

Lemma stringify_task_length (t : Task) : (2 <= length (stringify_task t))%nat.
Proof. unfold stringify_task, quoteJSONString. simpl. lia. Qed.

Lemma join_commas_length (l : list Task) :
  (2 * length l <= length (join_commas (map stringify_task l)))%nat.
Proof.
  induction l as [|t l IH]; [simpl; lia|].
  destruct l as [|t' l].
  - simpl. pose proof (stringify_task_length t). lia.
  - change (map stringify_task (t :: t' :: l))
      with (stringify_task t :: stringify_task t' :: map stringify_task l).
    rewrite join_commas_cons, length_app.
    change (stringify_task t' :: map stringify_task l)
      with (map stringify_task (t' :: l)).
    pose proof (stringify_task_length t).
    simpl length in IH |- *. lia.
Qed.

(** [JSON.parse(JSON.stringify(tasks))] is the array of the tasks' JSON
    values. *)
Lemma JSON_parse_stringify (l : list Task) :
  Forall exact_id l ->
  JSON_parse (JSON_stringify l) = Some (JArray (map json_of_task l)).
Proof.
  intros Hall. unfold JSON_parse, JSON_stringify.
  destruct l as [|t l]; [reflexivity|].
  pose proof (join_commas_length (t :: l)) as Hlen.
  set (body := join_commas (map stringify_task (t :: l))) in *.
  assert (Hfuel : exists f,
             (2 * length (91%N :: body ++ [93%N]) + 1
              = S (6 + length l + f))%nat).
  { exists (2 * length (91%N :: body ++ [93%N]) + 1 - 7 - length l)%nat.
    simpl length in Hlen |- *. rewrite length_app. simpl length. lia. }
  destruct Hfuel as [f ->].
  assert (Hhead : exists r, body = 123%N :: r).
  { unfold body. destruct l as [|t' l].
    - eexists. reflexivity.
    - eexists. reflexivity. }
  destruct Hhead as [r Hr].
  cbn [parse_value]. rewrite skip_ws_fixed by reflexivity.
  change (91 =? 110)%N with false. change (91 =? 116)%N with false.
  change (91 =? 102)%N with false. change (91 =? 34)%N with false.
  change (91 =? 91)%N with true. cbv iota.
  rewrite Hr at 1. simpl app at 1. rewrite skip_ws_fixed by reflexivity.
  change (123 =? 93)%N with false. cbv iota.
  unfold body. rewrite (parse_elements_tasks l t f [] Hall).
  reflexivity.
Qed.

Lemma load_of_persist (l : list Task) :
  Forall exact_id l -> load (persist l) = Returns l.
Proof.
  intros Hall. unfold load, persist, loadEffect, persistEffect.
  change (tasks (setTasks l init)) with l.
  assert (Ht : truthy (JSON_stringify l) = true) by reflexivity.
  rewrite Ht, (JSON_parse_stringify l Hall).
  unfold as_tasks. rewrite all_tasks_json_of_task. reflexivity.
Qed.

Example load_of_persist_scenario : load (persist scenario) = Returns scenario.
Proof. vm_compute. reflexivity. Qed.









(** On integer ids the two readings of the effects agree: what is
    written for the objects is what is written for their tasks. *)
Example objects_and_tasks_agree :
  persist_objects scenario_objects = persist scenario.
Proof. reflexivity. Qed.

Example roundtrip_escapes : load (persist awkward) = Returns awkward.
Proof. vm_compute. reflexivity. Qed.

Example load_empty_array : load (Some (lit " [ ] ")) = Returns [].
Proof. reflexivity. Qed.

(** ** [JSON.parse]: progress and fuel *)

Lemma skip_ws_length (s : jsstring) : (length (skip_ws s) <= length s)%nat.
Proof.
  induction s as [|c r IH]; simpl; [lia|].
  destruct (isJSONWhiteSpace c); simpl; lia.
Qed.

Lemma skip_ws_cons_length (s : jsstring) (c : N) (r : jsstring) :
  skip_ws s = c :: r -> (length r < length s)%nat.
Proof.
  intros H. pose proof (skip_ws_length s) as L. rewrite H in L.
  simpl in L. lia.
Qed.

Lemma strip_length (p s r : jsstring) :
  strip p s = Some r -> length s = (length p + length r)%nat.
Proof.
  revert s. induction p as [|a p IH]; intros s H; simpl in H.
  - injection H as ->. reflexivity.
  - destruct s as [|b s]; [discriminate|].
    destruct (a =? b)%N; [|discriminate].
    simpl. rewrite (IH s H). reflexivity.
Qed.

Lemma keyword_length (p : jsstring) (v x : json) (s r : jsstring) :
  keyword p v s = Some (x, r) -> length s = (length p + length r)%nat.
Proof.
  unfold keyword. intros H. destruct (strip p s) as [r'|] eqn:E; [|discriminate].
  injection H as _ <-. apply strip_length. exact E.
Qed.

Lemma read_digits_length (s : jsstring) :
  (length (snd (read_digits s)) <= length s)%nat.
Proof.
  induction s as [|c r IH]; simpl; [lia|].
  destruct (digit_of c); [|simpl; lia].
  destruct (read_digits r). simpl in *. lia.
Qed.

Lemma parse_frac_length (s : jsstring) (b : bool) (r : jsstring) :
  parse_frac s = Some (b, r) -> (length r <= length s)%nat.
Proof.
  unfold parse_frac. intros H.
  destruct s as [|c s]; [injection H as _ <-; simpl; lia|].
  destruct (c =? 46)%N; [|injection H as _ <-; lia].
  destruct s as [|c1 s]; [discriminate|].
  destruct (isDigit c1); [|discriminate].
  injection H as _ <-.
  pose proof (read_digits_length (c1 :: s)). simpl length in *. lia.
Qed.

Lemma parse_exp_length (s : jsstring) (b : bool) (r : jsstring) :
  parse_exp s = Some (b, r) -> (length r <= length s)%nat.
Proof.
  unfold parse_exp. intros H.
  destruct s as [|c s]; [injection H as _ <-; simpl; lia|].
  destruct ((c =? 101) || (c =? 69))%N; [|injection H as _ <-; lia].
  destruct s as [|sg s]; [discriminate|].
  destruct ((sg =? 43) || (sg =? 45))%N.
  - destruct s as [|c1 s]; [discriminate|].
    destruct (isDigit c1); [|discriminate].
    injection H as _ <-.
    pose proof (read_digits_length (c1 :: s)). simpl length in *. lia.
  - destruct (isDigit sg); [|discriminate].
    injection H as _ <-.
    pose proof (read_digits_length (sg :: s)). simpl length in *. lia.
Qed.

Lemma read_digits_head (c : N) (r : jsstring) :
  isDigit c = true ->
  (length (snd (read_digits (c :: r))) < length (c :: r))%nat.
Proof.
  intros H. simpl. destruct (digit_of c) eqn:E.
  - pose proof (read_digits_length r). destruct (read_digits r).
    simpl in *. lia.
  - apply digit_of_isDigit in E. congruence.
Qed.

Lemma parse_unsigned_length (neg : bool) (s : jsstring) (n : jsnum) (r : jsstring) :
  parse_unsigned neg s = Some (n, r) -> (length r < length s)%nat.
Proof.
  unfold parse_unsigned. intros H. destruct s as [|c s]; [discriminate|].
  cbv zeta in H.
  assert (Hip : forall d r1,
            (if (c =? 48)%N then Some (Decimal.D0 Decimal.Nil, s)
             else if isDigit c then Some (read_digits (c :: s)) else None)
            = Some (d, r1) -> (length r1 < length (c :: s))%nat).
  { intros d r1 E. destruct (c =? 48)%N.
    - injection E as _ <-. simpl. lia.
    - destruct (isDigit c) eqn:Hd; [|discriminate].
      pose proof (read_digits_head c s Hd) as L.
      assert (E' : read_digits (c :: s) = (d, r1)) by congruence.
      rewrite E' in L. exact L. }
  destruct (if (c =? 48)%N then Some (Decimal.D0 Decimal.Nil, s)
            else if isDigit c then Some (read_digits (c :: s)) else None)
    as [[d r1]|]; [|discriminate].
  specialize (Hip d r1 eq_refl).
  destruct (parse_frac r1) as [[hf r2]|] eqn:Ef; [|discriminate].
  destruct (parse_exp r2) as [[he r3]|] eqn:Ee; [|discriminate].
  injection H as _ <-.
  apply parse_frac_length in Ef. apply parse_exp_length in Ee. lia.
Qed.

Lemma parse_number_length (s : jsstring) (n : jsnum) (r : jsstring) :
  parse_number s = Some (n, r) -> (length r < length s)%nat.
Proof.
  unfold parse_number. intros H. destruct s as [|c s]; [discriminate|].
  destruct (c =? 45)%N; apply parse_unsigned_length in H; simpl in *; lia.
Qed.

Lemma cons_unit_some (c : N) (k : option (jsstring * jsstring))
  (x r : jsstring) :
  cons_unit c k = Some (x, r) -> exists x', k = Some (x', r).
Proof.
  destruct k as [[x' r']|]; simpl; [|discriminate].
  intros H. injection H as _ <-. exists x'. reflexivity.
Qed.

Lemma parse_string_length (s x r : jsstring) :
  parse_string s = Some (x, r) -> (length r < length s)%nat.
Proof.
  remember (length s) as n eqn:Hn. revert s x r Hn.
  induction n as [n IH] using lt_wf_ind. intros s x r Hn H.
  destruct s as [|c s]; [discriminate|]. simpl in H.
  destruct (c =? 34)%N; [injection H as _ <-; subst n; simpl; lia|].
  destruct (c =? 92)%N.
  - destruct s as [|e s]; [discriminate|].
    destruct (e =? 117)%N.
    + destruct s as [|h1 [|h2 [|h3 [|h4 s]]]]; try discriminate.
      destruct (hex4 h1 h2 h3 h4); [|discriminate].
      apply cons_unit_some in H. destruct H as [x' H].
      apply (IH (length s)) in H; subst n; simpl in *; lia.
    + destruct (simple_escape e); [|discriminate].
      apply cons_unit_some in H. destruct H as [x' H].
      apply (IH (length s)) in H; subst n; simpl in *; lia.
  - destruct (c <? 32)%N; [discriminate|].
    apply cons_unit_some in H. destruct H as [x' H].
    apply (IH (length s)) in H; subst n; simpl in *; lia.
Qed.

(** Case analysis on every test of a parser body found in [H]. *)
Ltac split_parser H :=
  repeat match type of H with
         | context [match ?x with _ => _ end] =>
           destruct x eqn:?; try discriminate H
         end.

(** Turn the equations left by [split_parser] into facts on lengths. *)
Ltac length_facts :=
  repeat match goal with
         | E : skip_ws _ = _ :: _ |- _ => apply skip_ws_cons_length in E
         | E : parse_string _ = Some _ |- _ => apply parse_string_length in E
         | E : parse_number _ = Some _ |- _ => apply parse_number_length in E
         | E : keyword _ _ _ = Some _ |- _ => apply keyword_length in E
         end.

(** Every successful parse consumes at least one unit. *)
Lemma parse_consumes (f : nat) :
  (forall s v r, parse_value f s = Some (v, r) -> (length r < length s)%nat)
  /\ (forall s l r, parse_elements f s = Some (l, r) ->
        (length r < length s)%nat)
  /\ (forall s l r, parse_members f s = Some (l, r) ->
        (length r < length s)%nat).
Proof.
  induction f as [|f [IHv [IHe IHm]]].
  { repeat split; intros; discriminate. }
  split; [|split].
  - intros s v r H. cbn [parse_value] in H. split_parser H;
      repeat match goal with
             | p : (_ * _)%type |- _ => destruct p
             end;
      try (injection H as <- <-); try (injection H as _ <-);
      repeat match goal with
             | E : parse_elements f _ = Some _ |- _ => apply IHe in E
             | E : parse_members f _ = Some _ |- _ => apply IHm in E
             end;
      length_facts; simpl length in *; try lia.
    all: apply keyword_length in H; simpl length in *; lia.
  - intros s l r H. cbn [parse_elements] in H. split_parser H;
      try (injection H as _ <-);
      repeat match goal with
             | E : parse_value f _ = Some _ |- _ => apply IHv in E
             | E : parse_elements f _ = Some _ |- _ => apply IHe in E
             end;
      length_facts; simpl length in *; lia.
  - intros s l r H. cbn [parse_members] in H. split_parser H;
      try (injection H as _ <-);
      repeat match goal with
             | E : parse_value f _ = Some _ |- _ => apply IHv in E
             | E : parse_members f _ = Some _ |- _ => apply IHm in E
             end;
      length_facts; simpl length in *; lia.
Qed.

(** A parse that succeeds with some fuel succeeds, with the same result,
    with any fuel above twice the length of the text. *)
Lemma parse_fuel (f : nat) :
  (forall s v r, parse_value f s = Some (v, r) ->
     forall f', (2 * length s + 1 <= f')%nat -> parse_value f' s = Some (v, r))
  /\ (forall s l r, parse_elements f s = Some (l, r) ->
        forall f', (2 * length s + 2 <= f')%nat ->
                   parse_elements f' s = Some (l, r))
  /\ (forall s l r, parse_members f s = Some (l, r) ->
        forall f', (2 * length s + 2 <= f')%nat ->
                   parse_members f' s = Some (l, r)).
Proof.
  induction f as [|f [IHv [IHe IHm]]].
  { repeat split; intros; discriminate. }
  destruct (parse_consumes f) as [Cv [Ce Cm]].
  split; [|split].
  - intros s v r H f' Hf. destruct f' as [|f']; [lia|].
    cbn [parse_value] in H |- *.
    destruct (skip_ws s) as [|c r0] eqn:Es; [discriminate|].
    apply skip_ws_cons_length in Es.
    repeat match type of H with
           | context [if ?b then _ else _] => destruct b; [exact H|]
           end.
    destruct (c =? 91)%N.
    { destruct (skip_ws r0) as [|c' r'] eqn:Er; [discriminate|].
      destruct (c' =? 93)%N; [exact H|].
      destruct (parse_elements f r0) as [[l r'']|] eqn:E; [|discriminate].
      rewrite (IHe _ _ _ E f') by lia. exact H. }
    destruct (c =? 123)%N; [|exact H].
    destruct (skip_ws r0) as [|c' r'] eqn:Er; [discriminate|].
    destruct (c' =? 125)%N; [exact H|].
    destruct (parse_members f r0) as [[l r'']|] eqn:E; [|discriminate].
    rewrite (IHm _ _ _ E f') by lia. exact H.
  - intros s l r H f' Hf. destruct f' as [|f']; [lia|].
    cbn [parse_elements] in H |- *.
    destruct (parse_value f s) as [[v r1]|] eqn:Ev; [|discriminate].
    rewrite (IHv _ _ _ Ev f') by lia. apply Cv in Ev.
    destruct (skip_ws r1) as [|c r'] eqn:Er; [discriminate|].
    apply skip_ws_cons_length in Er.
    destruct (c =? 93)%N; [exact H|].
    destruct (c =? 44)%N; [|discriminate].
    destruct (parse_elements f r') as [[l' r'']|] eqn:E; [|discriminate].
    rewrite (IHe _ _ _ E f') by lia. exact H.
  - intros s l r H f' Hf. destruct f' as [|f']; [lia|].
    cbn [parse_members] in H |- *.
    destruct (skip_ws s) as [|q r0] eqn:Es; [discriminate|].
    apply skip_ws_cons_length in Es.
    destruct (q =? 34)%N; [|discriminate].
    destruct (parse_string r0) as [[k r1]|] eqn:Ek; [|discriminate].
    apply parse_string_length in Ek.
    destruct (skip_ws r1) as [|c1 r2] eqn:E1; [discriminate|].
    apply skip_ws_cons_length in E1.
    destruct (c1 =? 58)%N; [|discriminate].
    destruct (parse_value f r2) as [[v r3]|] eqn:Ev; [|discriminate].
    rewrite (IHv _ _ _ Ev f') by lia. apply Cv in Ev.
    destruct (skip_ws r3) as [|c r'] eqn:Er; [discriminate|].
    apply skip_ws_cons_length in Er.
    destruct (c =? 125)%N; [exact H|].
    destruct (c =? 44)%N; [|discriminate].
    destruct (parse_members f r') as [[l' r'']|] eqn:E; [|discriminate].
    rewrite (IHm _ _ _ E f') by lia. exact H.
Qed.

(** The fuel [JSON_parse] provides is enough: a text that some amount of
    fuel parses, with only white space left, is parsed by [JSON_parse];
    so [None] is a syntax error and never a lack of fuel. *)
Lemma JSON_parse_complete (f : nat) (s : jsstring) (v : json) (r : jsstring) :
  parse_value f s = Some (v, r) -> skip_ws r = [] -> JSON_parse s = Some v.
Proof.
  intros H Hr. unfold JSON_parse.
  rewrite (proj1 (parse_fuel f) s v r H (2 * length s + 1)%nat) by lia.
  rewrite Hr. reflexivity.
Qed.

(** ** Load *)

(** C2, refuted as stated: a stored value that is not parsable as JSON
    does not yield the empty collection; [JSON.parse] throws and nothing
    catches it. *)
Lemma load_unparsable_throws :
  JSON_parse stored_garbage = None
  /\ load (Some stored_garbage) = Throws
  /\ load (Some stored_garbage) <> Returns [].
Proof.
  split; [reflexivity|]. split; [reflexivity|].
  intros H. vm_compute in H. discriminate H.
Qed.

(** C2, amended. [load] yields the empty collection when the stored
    value is absent or is the empty string; when it is a non-empty
    string that [JSON.parse] rejects, [load] ends in the uncaught
    [SyntaxError]. *)
Theorem load_absent_or_unparsable (stored : option jsstring) :
  (stored = None \/ stored = Some [] -> load stored = Returns [])
  /\ (forall s, stored = Some s -> s <> [] -> JSON_parse s = None ->
        load stored = Throws).
Proof.
  split.
  - intros [->| ->]; reflexivity.
  - intros s -> Hs Hp. unfold load, loadEffect.
    destruct s as [|c r]; [congruence|].
    cbn [truthy]. rewrite Hp. reflexivity.
Qed.

Lemma load_absent_or_unparsable_witness :
  load None = Returns []
  /\ stored_garbage <> []
  /\ JSON_parse stored_garbage = None
  /\ load (Some stored_garbage) = Throws.
Proof.
  assert (H1 : stored_garbage <> []) by (vm_compute; discriminate).
  assert (H2 : JSON_parse stored_garbage = None) by reflexivity.
  split.
  - exact (proj1 (load_absent_or_unparsable None) (or_introl eq_refl)).
  - split; [exact H1|]. split; [exact H2|].
    exact (proj2 (load_absent_or_unparsable (Some stored_garbage))
                 stored_garbage eq_refl H1 H2).
Defined.

(** ** The text invariant *)

Lemma text_ok_trim (s : jsstring) :
  trim s <> [] -> (length s <= 120)%nat -> text_ok (trim s).
Proof.
  intros Hne Hlen. split; [exact Hne|]. split; [apply trim_trimmed|].
  pose proof (trim_length s). lia.
Qed.

Lemma texts_ok_map (g : Task -> Task) (l : list Task) :
  (forall t, text_ok (text t) -> text_ok (text (g t))) ->
  texts_ok l -> texts_ok (map g l).
Proof.
  intros Hg H. unfold texts_ok in *. induction H as [|t l Ht Hl IH]; simpl.
  - constructor.
  - constructor; [apply Hg; exact Ht | exact IH].
Qed.

Lemma texts_ok_filter (p : Task -> bool) (l : list Task) :
  texts_ok l -> texts_ok (List.filter p l).
Proof.
  unfold texts_ok. rewrite !Forall_forall. intros H t Ht.
  apply filter_In in Ht. apply H. apply Ht.
Qed.

Lemma text_inv_handleAddTask (now : Z) (st : AppState) :
  text_inv st -> text_inv (handleAddTask now st).
Proof.
  intros [Ht [Hi He]]. unfold handleAddTask.
  destruct (length (trim (input st)) =? 0)%nat eqn:E.
  - split; [exact Ht | split; assumption].
  - split; [|split; [simpl; lia | exact He]].
    simpl. unfold texts_ok. apply Forall_app. split; [exact Ht|].
    constructor; [|constructor]. simpl. apply text_ok_trim; [|exact Hi].
    intros Hnil. rewrite Hnil in E. discriminate.
Qed.

Lemma text_inv_handleEditTask (i : Z) (st : AppState) :
  text_inv st -> text_inv (handleEditTask i st).
Proof.
  intros [Ht [Hi He]]. unfold handleEditTask.
  split; [exact Ht | split; [exact Hi|]]. simpl.
  unfold find_task. destruct (find (fun t => id t =? i) (tasks st)) as [t|] eqn:E.
  - apply find_some in E. destruct E as [Hin _].
    unfold texts_ok in Ht. rewrite Forall_forall in Ht.
    apply (Ht t Hin).
  - simpl. lia.
Qed.

Lemma text_inv_handleUpdateTask (st : AppState) :
  text_inv st -> text_inv (handleUpdateTask st).
Proof.
  intros [Ht [Hi He]]. unfold handleUpdateTask.
  destruct (length (trim (editInput st)) =? 0)%nat eqn:E.
  - split; [exact Ht | split; [exact Hi | simpl; lia]].
  - split; [|split; [exact Hi | simpl; lia]].
    simpl. apply texts_ok_map; [|exact Ht].
    intros t Hok. destruct (id_is t (editingId st)); [|exact Hok].
    simpl. apply text_ok_trim; [|exact He].
    intros Hnil. rewrite Hnil in E. discriminate.
Qed.

Lemma text_inv_handleDeleteTask (i : Z) (st : AppState) :
  text_inv st -> text_inv (handleDeleteTask i st).
Proof.
  intros [Ht [Hi He]]. unfold handleDeleteTask.
  destruct (editing (editingId st) i); simpl;
    (split; [apply texts_ok_filter; exact Ht | split; [exact Hi|]]);
    simpl; lia.
Qed.

Lemma text_inv_handleToggleComplete (i : Z) (st : AppState) :
  text_inv st -> text_inv (handleToggleComplete i st).
Proof.
  intros [Ht [Hi He]]. unfold handleToggleComplete.
  split; [|split; assumption].
  simpl. apply texts_ok_map; [|exact Ht].
  intros t Hok. destruct (id t =? i); exact Hok.
Qed.

Lemma text_inv_handleKey (st : AppState) :
  text_inv st -> text_inv (handleKey st).
Proof.
  intros [Ht [Hi He]]. unfold handleKey.
  destruct (editingId st) as [i|]; [|split; [exact Ht | split; assumption]].
  destruct (i =? 0); split; try exact Ht; split; try assumption.
  simpl. lia.
Qed.

(** Every event the page allows preserves the invariant. *)
Lemma text_inv_step (e : Event) (st : AppState) :
  within_maxLength e = true -> text_inv st -> text_inv (step e st).
Proof.
  intros He Hst. destruct e; simpl in He |- *.
  - destruct Hst as [Ht [_ Hei]]. apply Nat.leb_le in He.
    split; [exact Ht | split; [exact He | exact Hei]].
  - apply text_inv_handleAddTask. exact Hst.
  - apply text_inv_handleEditTask. exact Hst.
  - destruct Hst as [Ht [Hi _]]. apply Nat.leb_le in He.
    split; [exact Ht | split; [exact Hi | exact He]].
  - apply text_inv_handleUpdateTask. exact Hst.
  - apply text_inv_handleDeleteTask. exact Hst.
  - apply text_inv_handleToggleComplete. exact Hst.
  - exact Hst.
  - exact Hst.
  - apply text_inv_handleKey. exact Hst.
Qed.

Lemma text_inv_reachable (l0 : list Task) (st : AppState) :
  texts_ok l0 -> reachable l0 st -> text_inv st.
Proof.
  intros H0 Hr. induction Hr as [|e st Hr IH He].
  - split; [exact H0 | split; simpl; lia].
  - apply text_inv_step; assumption.
Qed.

Lemma reachable_run (l0 : list Task) (es : list Event) (st : AppState) :
  reachable l0 st -> forallb within_maxLength es = true ->
  reachable l0 (run es st).
Proof.
  revert st. induction es as [|e es IH]; intros st Hr Hes; [exact Hr|].
  simpl in Hes. apply andb_true_iff in Hes. destruct Hes as [He Hes].
  unfold run. simpl. apply IH; [|exact Hes].
  apply reach_step; assumption.
Qed.

(** C7, refuted as stated: [load] installs a stored task whose text is
    empty, so a state reached through [load] holds a task with an empty
    text. *)
Lemma load_installs_empty_text :
  load (Some stored_blank) = Returns blank_task
  /\ reachable blank_task (mounted blank_task)
  /\ ~ texts_ok (tasks (mounted blank_task)).
Proof.
  split; [reflexivity|]. split; [constructor|].
  intros H. inversion H as [|? ? [Hne _] _]. apply Hne. reflexivity.
Qed.

Example stored_blank_is_persisted : persist blank_task = Some stored_blank.
Proof. reflexivity. Qed.

(** A store written by [persist] from a collection that satisfies the
    invariant loads into one that satisfies it. *)
Lemma load_persisted_texts_ok (l : list Task) :
  Forall exact_id l -> texts_ok l ->
  exists l0, load (persist l) = Returns l0 /\ texts_ok l0.
Proof.
  intros Hid Hok. exists l. split; [apply load_of_persist; exact Hid | exact Hok].
Qed.

(** C7, amended. When the collection [load] yields satisfies the text
    invariant (as the empty collection of an absent store does), every
    state reached from it by create, rename, toggle and delete events,
    with the inputs bounded by their [maxLength], keeps it: each stored
    text is non-empty, free of leading and trailing white space and at
    most 120 units long. [load] itself checks nothing. *)
Theorem texts_ok_preserved
  (stored : option jsstring) (l0 : list Task) (st : AppState) :
  load stored = Returns l0 ->
  texts_ok l0 ->
  reachable l0 st ->
  texts_ok (tasks st).
Proof.
  intros _ H0 Hr. apply (text_inv_reachable l0 st H0 Hr).
Qed.

Lemma texts_ok_preserved_witness :
  load None = Returns []
  /\ texts_ok []
  /\ reachable [] (run double_submit (mounted []))
  /\ texts_ok (tasks (run double_submit (mounted []))).
Proof.
  assert (H1 : load None = Returns []) by reflexivity.
  assert (H2 : texts_ok []) by constructor.
  assert (H3 : reachable [] (run double_submit (mounted []))).
  { apply reachable_run; [constructor | reflexivity]. }
  split; [exact H1|]. split; [exact H2|]. split; [exact H3|].
  exact (texts_ok_preserved None [] _ H1 H2 H3).
Defined.

(** ** Identifiers *)

(** C1, evaluated where it fails: two successive creates of the same
    text that read the same clock value leave, in a reachable state, two
    tasks with equal text and the same id, so the ids are not pairwise
    distinct. *)
Theorem same_tick_creates_share_id :
  reachable [] (run double_submit (mounted []))
  /\ run double_submit (mounted [])
     = create tick call_mom (create tick call_mom (mounted []))
  /\ tasks (run double_submit (mounted []))
     = [mkTask tick call_mom false; mkTask tick call_mom false]
  /\ ~ NoDup (ids (tasks (run double_submit (mounted [])))).
Proof.
  split; [apply reachable_run; [constructor | reflexivity]|].
  split; [reflexivity|]. split; [reflexivity|].
  intros H. inversion H as [|? ? Hin _]. apply Hin. left. reflexivity.
Qed.

(** With a clock reading that no stored task carries, create keeps the
    ids pairwise distinct. *)
Lemma create_fresh_id (now : Z) (s : jsstring) (st : AppState) :
  NoDup (ids (tasks st)) -> ~ In now (ids (tasks st)) ->
  NoDup (ids (tasks (create now s st))).
Proof.
  intros Hnd Hfresh. rewrite tasks_create.
  destruct (trim s) as [|c r]; [exact Hnd|].
  unfold ids. rewrite map_app. simpl.
  apply NoDup_app; [exact Hnd | repeat constructor; intros [] |].
  intros a Ha [<-|[]]. exact (Hfresh Ha).
Qed.

(** * Further properties of the handlers *)

(** ** [trim] is idempotent *)

Lemma rev_head_last (s : jsstring) (d : N) :
  s <> [] -> exists y, rev s = last s d :: y.
Proof.
  intros Hs. destruct (rev s) as [|x y] eqn:E.
  - exfalso. apply Hs. rewrite <- (rev_involutive s), E. reflexivity.
  - exists y. f_equal.
    rewrite <- (rev_involutive s), E. symmetry. apply last_rev_cons.
Qed.

(** A non-empty string with no white space at either end is left as it
    is by [trim]. *)
Lemma trim_fixed (s : jsstring) : trimmed s -> trim s = s.
Proof.
  destruct s as [|c r]; [reflexivity|]. intros [Hc Hl].
  unfold trim, trimEnd.
  assert (E1 : trimStart (c :: r) = c :: r) by (simpl; rewrite Hc; reflexivity).
  rewrite E1.
  destruct (rev_head_last (c :: r) c) as [y Hy]; [discriminate|].
  remember (last (c :: r) c) as x eqn:Hx.
  rewrite Hy. cbn [trimStart]. rewrite Hl. rewrite <- Hy.
  apply rev_involutive.
Qed.

Lemma trim_idempotent (s : jsstring) : trim (trim s) = trim s.
Proof. apply trim_fixed. apply trim_trimmed. Qed.

(** ** Submitting the add form *)

(** X1. A second submit of the add form with nothing typed in between
    does nothing, whatever the two clock readings: the first submit
    either was rejected (blank input) or cleared the input. *)
Theorem second_submit_is_noop (now1 now2 : Z) (st : AppState) :
  handleAddTask now2 (handleAddTask now1 st) = handleAddTask now1 st.
Proof.
  unfold handleAddTask at 2 3.
  destruct (length (trim (input st)) =? 0)%nat eqn:E.
  - unfold handleAddTask. rewrite E. reflexivity.
  - reflexivity.
Qed.

(** X2. White space around the typed text does not reach the collection:
    creating or renaming with [s] gives the same collection as with
    [trim s]. *)
Theorem surrounding_space_is_dropped
  (now i : Z) (s : jsstring) (st : AppState) :
  tasks (create now s st) = tasks (create now (trim s) st)
  /\ tasks (rename i s st) = tasks (rename i (trim s) st).
Proof.
  rewrite !tasks_create, !tasks_rename, trim_idempotent. split; reflexivity.
Qed.

(** ** Delete *)

Lemma filter_idempotent (A : Type) (p : A -> bool) (l : list A) :
  List.filter p (List.filter p l) = List.filter p l.
Proof.
  rewrite filter_twice. apply filter_ext. intros a. destruct (p a); reflexivity.
Qed.

Lemma filter_length_split (A : Type) (p : A -> bool) (l : list A) :
  (length (List.filter p l) + length (List.filter (fun a => negb (p a)) l)
   = length l)%nat.
Proof.
  induction l as [|a l IH]; [reflexivity|].
  simpl. destruct (p a); simpl; lia.
Qed.

Lemma filter_keeps_all (A : Type) (p : A -> bool) (l : list A) :
  (forall a, In a l -> p a = true) -> List.filter p l = l.
Proof.
  intros H. induction l as [|a l IH]; [reflexivity|].
  simpl. rewrite (H a (or_introl eq_refl)).
  rewrite IH; [reflexivity|]. intros b Hb. apply H. right. exact Hb.
Qed.

(** X3. [handleDeleteTask] twice with the same id is [handleDeleteTask]
    once: the second call finds nothing to remove and nothing to
    reset. *)
Theorem delete_twice (i : Z) (st : AppState) :
  handleDeleteTask i (handleDeleteTask i st) = handleDeleteTask i st.
Proof.
  destruct st as [l f q inp e ei].
  unfold handleDeleteTask. simpl.
  destruct (editing e i) eqn:E; simpl.
  - rewrite filter_idempotent. reflexivity.
  - rewrite E. rewrite filter_idempotent. reflexivity.
Qed.

(** X4. [handleDeleteTask] removes exactly the tasks that carry the id:
    the size drops by their number, the tasks with another id stay, each
    as it was and in the same order, and a later lookup of the id finds
    nothing. *)
Theorem delete_accounting (i : Z) (st : AppState) :
  (length (tasks (handleDeleteTask i st)) + count_id i (tasks st)
   = length (tasks st))%nat
  /\ List.filter (fun t => negb (id t =? i)) (tasks (handleDeleteTask i st))
     = List.filter (fun t => negb (id t =? i)) (tasks st)
  /\ find_task i (tasks (handleDeleteTask i st)) = None.
Proof.
  rewrite tasks_handleDeleteTask. unfold count_id. split; [|split].
  - pose proof (filter_length_split _ (fun t => id t =? i) (tasks st)). lia.
  - apply filter_idempotent.
  - unfold find_task.
    destruct (find (fun t => id t =? i)
                   (List.filter (fun t => negb (id t =? i)) (tasks st)))
      as [t|] eqn:E; [|reflexivity].
    apply find_some in E. destruct E as [Hin Hi].
    apply filter_In in Hin. destruct Hin as [_ Hn].
    rewrite Hi in Hn. discriminate.
Qed.

(** X5. Deleting an id that no task carries leaves the collection as it
    is. *)
Theorem delete_missing_id (i : Z) (st : AppState) :
  (forall t, In t (tasks st) -> id t <> i) ->
  tasks (handleDeleteTask i st) = tasks st.
Proof.
  intros H. rewrite tasks_handleDeleteTask. apply filter_keeps_all.
  intros t Ht. apply negb_true_iff, Z.eqb_neq. apply H. exact Ht.
Qed.

Lemma delete_missing_id_witness :
  (forall t, In t (tasks (mounted scenario)) -> id t <> 9)
  /\ tasks (handleDeleteTask 9 (mounted scenario)) = scenario.
Proof.
  assert (H : forall t, In t (tasks (mounted scenario)) -> id t <> 9).
  { intros t [<-|[<-|[]]]; simpl; lia. }
  split; [exact H | exact (delete_missing_id 9 (mounted scenario) H)].
Defined.

(** X6. After [handleDeleteTask i] the editor is never left open on the
    deleted id: if it was, it is closed and its input emptied; if it was
    open on another id or closed, it is left as it was. *)
Theorem delete_closes_its_editor (i : Z) (st : AppState) :
  editingId (handleDeleteTask i st) <> Some i
  /\ (editingId st = Some i ->
        editingId (handleDeleteTask i st) = None
        /\ editInput (handleDeleteTask i st) = [])
  /\ (editingId st <> Some i ->
        editingId (handleDeleteTask i st) = editingId st
        /\ editInput (handleDeleteTask i st) = editInput st).
Proof.
  unfold handleDeleteTask.
  destruct (editingId st) as [j|] eqn:Ej; simpl.
  - destruct (Z.eqb_spec j i) as [->|Hne]; simpl.
    + split; [discriminate|]. split; [intros _; split; reflexivity|].
      intros H. congruence.
    + rewrite Ej. split; [congruence|]. split; [congruence|].
      intros _. split; reflexivity.
  - rewrite Ej. split; [discriminate|]. split; [discriminate|].
    intros _. split; reflexivity.
Qed.

(** ** Edit, save, cancel *)

Lemma find_first (p : Task -> bool) (l : list Task) :
  forall (n : nat) (t : Task),
    nth_error l n = Some t -> p t = true ->
    (forall m u, (m < n)%nat -> nth_error l m = Some u -> p u = false) ->
    find p l = Some t.
Proof.
  induction l as [|a l IH]; intros n t Hn Hp Hbefore.
  - destruct n; discriminate.
  - destruct n as [|n]; simpl in Hn |- *.
    + injection Hn as ->. rewrite Hp. reflexivity.
    + rewrite (Hbefore 0%nat a (Nat.lt_0_succ n) eq_refl).
      apply (IH n t Hn Hp). intros m u Hm Hu.
      apply (Hbefore (S m) u); [lia | exact Hu].
Qed.

Lemma find_absent (p : Task -> bool) (l : list Task) :
  (forall t, In t l -> p t = false) -> find p l = None.
Proof.
  intros H. induction l as [|a l IH]; [reflexivity|].
  simpl. rewrite (H a (or_introl eq_refl)).
  apply IH. intros t Ht. apply H. right. exact Ht.
Qed.

(** X7. [handleEditTask] opens the editor on the id it is given, leaves
    the collection alone and fills the edit input with the text of the
    first task that carries the id; when no task carries it the editor
    is opened all the same, on an empty input. *)
Theorem edit_loads_first_match (i : Z) (st : AppState) :
  tasks (handleEditTask i st) = tasks st
  /\ editingId (handleEditTask i st) = Some i
  /\ (forall n t,
        nth_error (tasks st) n = Some t -> id t = i ->
        (forall m u, (m < n)%nat -> nth_error (tasks st) m = Some u ->
                     id u <> i) ->
        editInput (handleEditTask i st) = text t)
  /\ ((forall t, In t (tasks st) -> id t <> i) ->
        editInput (handleEditTask i st) = []).
Proof.
  split; [reflexivity|]. split; [reflexivity|]. split.
  - intros n t Hn Hi Hbefore. unfold handleEditTask, find_task. simpl.
    rewrite (find_first (fun u => id u =? i) (tasks st) n t Hn).
    + reflexivity.
    + apply Z.eqb_eq. exact Hi.
    + intros m u Hm Hu. apply Z.eqb_neq. exact (Hbefore m u Hm Hu).
  - intros Hno. unfold handleEditTask, find_task. simpl.
    rewrite find_absent; [reflexivity|].
    intros t Ht. apply Z.eqb_neq. exact (Hno t Ht).
Qed.

Lemma ids_unique (l : list Task) (t u : Task) :
  NoDup (ids l) -> In t l -> In u l -> id t = id u -> t = u.
Proof.
  induction l as [|a l IH]; intros Hnd Ht Hu E; [destruct Ht|].
  simpl in Hnd. inversion Hnd as [|? ? Hnot Hnd']; subst.
  destruct Ht as [->|Ht], Hu as [->|Hu].
  - reflexivity.
  - exfalso. apply Hnot. rewrite E. apply in_map. exact Hu.
  - exfalso. apply Hnot. rewrite <- E. apply in_map. exact Ht.
  - apply IH; assumption.
Qed.

Lemma map_fixes (g : Task -> Task) (l : list Task) :
  (forall t, In t l -> g t = t) -> map g l = l.
Proof.
  intros H. induction l as [|a l IH]; [reflexivity|].
  simpl. rewrite (H a (or_introl eq_refl)).
  rewrite IH; [reflexivity|]. intros t Ht. apply H. right. exact Ht.
Qed.

(** X8. Opening the editor on a task and saving without typing changes
    nothing in the collection, provided the ids are pairwise distinct
    and the task's text has no white space at either end. *)
Theorem edit_then_save_unchanged (i : Z) (st : AppState) :
  NoDup (ids (tasks st)) ->
  (forall t, In t (tasks st) -> id t = i -> trimmed (text t)) ->
  tasks (handleUpdateTask (handleEditTask i st)) = tasks st.
Proof.
  intros Hnd Htrim. rewrite tasks_handleUpdateTask.
  change (tasks (handleEditTask i st)) with (tasks st).
  change (editingId (handleEditTask i st)) with (Some i).
  destruct (trim (editInput (handleEditTask i st))) as [|c r] eqn:E;
    [reflexivity|]. rewrite <- E.
  unfold handleEditTask, find_task in E |- *. simpl in E |- *.
  destruct (find (fun t => id t =? i) (tasks st)) as [t0|] eqn:Ef.
  - apply find_some in Ef. destruct Ef as [Hin0 Hi0].
    apply Z.eqb_eq in Hi0.
    rewrite (trim_fixed (text t0) (Htrim t0 Hin0 Hi0)).
    apply map_fixes. intros t Ht.
    destruct (Z.eqb_spec (id t) i) as [Hi|_]; [|reflexivity].
    assert (Et : t = t0).
    { apply (ids_unique (tasks st)); try assumption. congruence. }
    subst t. destruct t0 as [j x c0]. reflexivity.
  - discriminate E.
Qed.

Lemma edit_then_save_unchanged_witness :
  NoDup (ids (tasks (mounted scenario)))
  /\ (forall t, In t (tasks (mounted scenario)) -> id t = 1 -> trimmed (text t))
  /\ tasks (handleUpdateTask (handleEditTask 1 (mounted scenario))) = scenario.
Proof.
  assert (H1 : NoDup (ids (tasks (mounted scenario)))).
  { simpl. repeat constructor; simpl; intuition lia. }
  assert (H2 : forall t, In t (tasks (mounted scenario)) -> id t = 1 ->
                         trimmed (text t)).
  { intros t [<-|[<-|[]]] _; simpl; split; reflexivity. }
  split; [exact H1|]. split; [exact H2|].
  exact (edit_then_save_unchanged 1 (mounted scenario) H1 H2).
Defined.

(** X9. Opening the editor on a task whose id is not 0 and pressing
    Escape gives back the state before, when the editor was closed. *)
Theorem edit_then_escape (i : Z) (st : AppState) :
  i <> 0 -> idle st -> handleKey (handleEditTask i st) = st.
Proof.
  intros Hi [He Hei]. destruct st as [l f q inp e ei]. simpl in He, Hei.
  subst e ei. unfold handleKey, handleEditTask. simpl.
  apply Z.eqb_neq in Hi. rewrite Hi. reflexivity.
Qed.

Lemma edit_then_escape_witness :
  1 <> 0 /\ idle (mounted scenario)
  /\ handleKey (handleEditTask 1 (mounted scenario)) = mounted scenario.
Proof.
  assert (H1 : 1 <> 0) by lia.
  assert (H2 : idle (mounted scenario)) by (split; reflexivity).
  split; [exact H1|]. split; [exact H2|].
  exact (edit_then_escape 1 (mounted scenario) H1 H2).
Defined.

(** ** How the operations compose *)

Lemma filter_map_commute (p : Task -> bool) (g : Task -> Task) (l : list Task) :
  (forall t, p (g t) = p t) ->
  List.filter p (map g l) = map g (List.filter p l).
Proof.
  intros H. induction l as [|a l IH]; [reflexivity|].
  simpl. rewrite H. destruct (p a); simpl; rewrite IH; reflexivity.
Qed.

Lemma rename_toggle_list (i j : Z) (x : jsstring) (l : list Task) :
  map (fun t => if id t =? i
                then with_completed t (negb (completed t)) else t)
      (map (fun t => if id t =? j then with_text t x else t) l)
  = map (fun t => if id t =? j then with_text t x else t)
        (map (fun t => if id t =? i
                       then with_completed t (negb (completed t)) else t) l).
Proof.
  rewrite !map_map. apply map_ext. intros [k y c]. simpl.
  destruct (k =? j) eqn:Ej, (k =? i) eqn:Ei; simpl;
    rewrite ?Ej, ?Ei; reflexivity.
Qed.

(** X11. Toggling one id and renaming another (or the same) id commute:
    either order gives the same state. *)
Theorem toggle_rename_commute (i j : Z) (s : jsstring) (st : AppState) :
  toggleComplete i (rename j s st) = rename j s (toggleComplete i st).
Proof.
  destruct st as [l f q inp e ei].
  unfold toggleComplete, rename, handleToggleComplete, handleUpdateTask.
  simpl. destruct (length (trim s) =? 0)%nat; simpl.
  - reflexivity.
  - rewrite rename_toggle_list. reflexivity.
Qed.

(** X12. Delete commutes with toggle, with rename and with another
    delete: either order gives the same state. *)
Theorem delete_commutes (i j : Z) (s : jsstring) (st : AppState) :
  delete i (toggleComplete j st) = toggleComplete j (delete i st)
  /\ delete i (rename j s st) = rename j s (delete i st)
  /\ delete i (delete j st) = delete j (delete i st).
Proof.
  destruct st as [l f q inp e ei].
  unfold delete, toggleComplete, rename.
  unfold handleDeleteTask, handleToggleComplete, handleUpdateTask.
  split; [|split]; simpl.
  - rewrite filter_map_commute
      by (intros [k y c]; simpl; destruct (k =? j); reflexivity).
    destruct (editing e i); reflexivity.
  - destruct (length (trim s) =? 0)%nat; simpl.
    + destruct (editing e i); reflexivity.
    + rewrite filter_map_commute
        by (intros [k y c]; simpl; destruct (k =? j); reflexivity).
      destruct (editing e i); reflexivity.
  - assert (E : List.filter (fun t => negb (id t =? i))
                  (List.filter (fun t => negb (id t =? j)) l)
                = List.filter (fun t => negb (id t =? j))
                    (List.filter (fun t => negb (id t =? i)) l)).
    { rewrite !filter_twice. apply filter_ext. intros t. apply andb_comm. }
    destruct (editing e j) eqn:Ej, (editing e i) eqn:Ei; simpl;
      rewrite ?Ej, ?Ei; simpl; rewrite E; reflexivity.
Qed.

(** X13. [handleToggleComplete] changes nothing but [completed] flags of
    the tasks with the id: size, ids and texts are kept position by
    position, a task with another id is kept whole, and when no task
    carries the id the collection is unchanged. *)
Theorem toggle_frame (i : Z) (st : AppState) :
  length (tasks (handleToggleComplete i st)) = length (tasks st)
  /\ map id (tasks (handleToggleComplete i st)) = map id (tasks st)
  /\ map text (tasks (handleToggleComplete i st)) = map text (tasks st)
  /\ (forall n t, nth_error (tasks st) n = Some t -> id t <> i ->
        nth_error (tasks (handleToggleComplete i st)) n = Some t)
  /\ ((forall t, In t (tasks st) -> id t <> i) ->
        tasks (handleToggleComplete i st) = tasks st).
Proof.
  unfold handleToggleComplete. simpl.
  split; [apply length_map|].
  split.
  { rewrite map_map. apply map_ext. intros t. destruct (id t =? i); reflexivity. }
  split.
  { rewrite map_map. apply map_ext. intros t. destruct (id t =? i); reflexivity. }
  split.
  - intros n t Hn Hi. rewrite (nth_error_map_some _ _ _ _ _ _ Hn).
    apply Z.eqb_neq in Hi. rewrite Hi. reflexivity.
  - intros Hno. apply map_unmatched. exact Hno.
Qed.

(** ** Identifiers across events *)

Lemma ids_map_keeps (g : Task -> Task) (l : list Task) :
  (forall t, id (g t) = id t) -> ids (map g l) = ids l.
Proof.
  intros H. unfold ids. rewrite map_map. apply map_ext. exact H.
Qed.

Lemma ids_filter (i : Z) (l : list Task) :
  ids (List.filter (fun t => negb (id t =? i)) l)
  = List.filter (fun j => negb (j =? i)) (ids l).
Proof.
  induction l as [|a l IH]; [reflexivity|].
  simpl. destruct (id a =? i); simpl; rewrite IH; reflexivity.
Qed.

Lemma ids_step_not_add (e : Event) (st : AppState) :
  is_add e = false ->
  ids (tasks (step e st)) = ids (tasks st)
  \/ exists i, ids (tasks (step e st))
               = List.filter (fun j => negb (j =? i)) (ids (tasks st)).
Proof.
  intros He. destruct e; try discriminate He; simpl.
  - left. reflexivity.
  - left. reflexivity.
  - left. reflexivity.
  - left. rewrite tasks_handleUpdateTask.
    destruct (trim (editInput st)); [reflexivity|].
    apply ids_map_keeps. intros t. destruct (id_is t (editingId st)); reflexivity.
  - right. exists i. rewrite tasks_handleDeleteTask. apply ids_filter.
  - left. unfold handleToggleComplete. simpl.
    apply ids_map_keeps. intros t. destruct (id t =? i); reflexivity.
  - left. reflexivity.
  - left. reflexivity.
  - left. unfold handleKey. destruct (editingId st) as [i|]; [|reflexivity].
    destruct (i =? 0); reflexivity.
Qed.

(** X14. Every event keeps the ids pairwise distinct, provided a submit
    of the add form reads a clock value that no stored task carries. *)
Theorem distinct_ids_preserved (e : Event) (st : AppState) :
  NoDup (ids (tasks st)) ->
  (forall now, e = AddSubmit now -> ~ In now (ids (tasks st))) ->
  NoDup (ids (tasks (step e st))).
Proof.
  intros Hnd Hfresh. destruct (is_add e) eqn:Ea.
  - destruct e; try discriminate Ea. simpl.
    rewrite tasks_handleAddTask.
    destruct (trim (input st)) as [|c r]; [exact Hnd|].
    unfold ids. rewrite map_app. simpl.
    apply NoDup_app; [exact Hnd | repeat constructor; intros [] |].
    intros a Ha [<-|[]]. exact (Hfresh now eq_refl Ha).
  - destruct (ids_step_not_add e st Ea) as [->|[i ->]].
    + exact Hnd.
    + apply NoDup_filter. exact Hnd.
Qed.

Lemma distinct_ids_preserved_witness :
  NoDup (ids (tasks (setInput call_mom (mounted scenario))))
  /\ (forall now, AddSubmit tick = AddSubmit now ->
        ~ In now (ids (tasks (setInput call_mom (mounted scenario)))))
  /\ NoDup (ids (tasks (step (AddSubmit tick)
                             (setInput call_mom (mounted scenario))))).
Proof.
  assert (H1 : NoDup (ids (tasks (setInput call_mom (mounted scenario))))).
  { simpl. repeat constructor; simpl; intuition lia. }
  assert (H2 : forall now, AddSubmit tick = AddSubmit now ->
                 ~ In now (ids (tasks (setInput call_mom (mounted scenario))))).
  { intros now E. injection E as <-. simpl. unfold tick. intuition lia. }
  split; [exact H1|]. split; [exact H2|].
  exact (distinct_ids_preserved (AddSubmit tick) _ H1 H2).
Defined.

(** X15. Only a submit of the add form brings in an id: after any other
    event every id of the collection was there before, and the
    collection is no longer than it was. *)
Theorem no_new_id_without_add (e : Event) (st : AppState) :
  is_add e = false ->
  incl (ids (tasks (step e st))) (ids (tasks st))
  /\ (length (tasks (step e st)) <= length (tasks st))%nat.
Proof.
  intros He.
  assert (Hlen : forall l : list Task, length l = length (ids l)).
  { intros l. unfold ids. symmetry. apply length_map. }
  rewrite !Hlen.
  destruct (ids_step_not_add e st He) as [->|[i ->]].
  - split; [apply incl_refl | lia].
  - split.
    + intros a Ha. apply filter_In in Ha. apply Ha.
    + apply filter_length_le.
Qed.

Lemma no_new_id_without_add_witness :
  is_add (DeleteClick 1) = false
  /\ incl (ids (tasks (step (DeleteClick 1) (mounted scenario)))) (ids scenario)
  /\ (length (tasks (step (DeleteClick 1) (mounted scenario))) <= 2)%nat.
Proof.
  assert (H : is_add (DeleteClick 1) = false) by reflexivity.
  split; [exact H|].
  exact (no_new_id_without_add (DeleteClick 1) (mounted scenario) H).
Defined.

(** X16. Typing in any of the three inputs, changing the filter,
    opening the editor and pressing Escape leave the collection, and so
    the string the persist effect writes, as they were. *)
Theorem view_events_keep_collection (e : Event) (st : AppState) :
  view_event e = true ->
  tasks (step e st) = tasks st
  /\ persistEffect (step e st) = persistEffect st.
Proof.
  intros He.
  assert (E : tasks (step e st) = tasks st).
  { destruct e; try discriminate He; simpl; try reflexivity.
    unfold handleKey. destruct (editingId st) as [i|]; [|reflexivity].
    destruct (i =? 0); reflexivity. }
  split; [exact E|]. unfold persistEffect. rewrite E. reflexivity.
Qed.

Lemma view_events_keep_collection_witness :
  view_event (SearchChange (lit "milk")) = true
  /\ tasks (step (SearchChange (lit "milk")) (mounted scenario)) = scenario.
Proof.
  assert (H : view_event (SearchChange (lit "milk")) = true) by reflexivity.
  split; [exact H|].
  exact (proj1 (view_events_keep_collection
                  (SearchChange (lit "milk")) (mounted scenario) H)).
Defined.

(** ** The visible list, further *)

Section VisibleFurther.

Variable toLowerCase : jsstring -> jsstring.

Lemma filteredTasks_filter (l : list Task) (mode : Filter) (q : jsstring) :
  visible toLowerCase l mode q
  = List.filter
      (fun t => mode_keeps mode t && search_keeps toLowerCase q t) l.
Proof.
  unfold visible, filteredTasks, search_keeps. simpl.
  destruct (trim q) as [|c r]; simpl.
  - destruct mode; simpl.
    + symmetry. apply filter_all.
    + apply filter_ext. intros t. rewrite andb_true_r. reflexivity.
    + apply filter_ext. intros t. rewrite andb_true_r. reflexivity.
  - destruct mode; simpl.
    + reflexivity.
    + apply filter_twice.
    + apply filter_twice.
Qed.

(** X17. For any search text, the active view and the completed view
    split the view of mode all: a task of the all view is in exactly one
    of the two, and the sizes add up. *)
Theorem active_completed_partition (l : list Task) (q : jsstring) :
  (forall t, In t (visible toLowerCase l FilterAll q) <->
             In t (visible toLowerCase l FilterActive q)
             \/ In t (visible toLowerCase l FilterCompleted q))
  /\ (forall t, In t (visible toLowerCase l FilterActive q) ->
                ~ In t (visible toLowerCase l FilterCompleted q))
  /\ (length (visible toLowerCase l FilterActive q)
      + length (visible toLowerCase l FilterCompleted q)
      = length (visible toLowerCase l FilterAll q))%nat.
Proof.
  rewrite !filteredTasks_filter. split; [|split].
  - intros t. rewrite !filter_In. simpl.
    destruct (completed t); simpl; intuition discriminate.
  - intros t. rewrite !filter_In. simpl.
    destruct (completed t); simpl; intros [_ H1] [_ H2]; discriminate.
  - induction l as [|a l' IH]; [reflexivity|].
    simpl in IH |- *. destruct (completed a); simpl;
      destruct (search_keeps toLowerCase q a); simpl; lia.
Qed.

(** X18. White space around the search text does not matter: the view
    for [q] is the view for [trim q]. *)
Theorem search_text_is_trimmed (l : list Task) (mode : Filter) (q : jsstring) :
  visible toLowerCase l mode q = visible toLowerCase l mode (trim q).
Proof.
  rewrite !filteredTasks_filter. apply filter_ext. intros t.
  unfold search_keeps. rewrite trim_idempotent. reflexivity.
Qed.

(** X19. A search text that is empty or white space only filters
    nothing: the view is the collection filtered by mode alone, and in
    mode all it is the whole collection in its order. *)
Theorem blank_search_shows_mode (l : list Task) (mode : Filter) (q : jsstring) :
  whitespace_only q ->
  visible toLowerCase l mode q = List.filter (mode_keeps mode) l
  /\ visible toLowerCase l FilterAll q = l.
Proof.
  intros H. apply trim_blank in H. rewrite !filteredTasks_filter.
  unfold search_keeps. rewrite H. split.
  - apply filter_ext. intros t. apply andb_true_r.
  - simpl. apply filter_all.
Qed.

(** X20. The view of a collection with tasks appended is the view of the
    collection followed by the view of the appended tasks; so a task
    just created shows last in the all and active views with a blank
    search, and not in the completed view. *)
Theorem created_task_is_shown_last
  (now : Z) (s : jsstring) (st : AppState) (mode : Filter) (q : jsstring) :
  trim s <> [] ->
  visible toLowerCase (tasks (create now s st)) mode q
  = visible toLowerCase (tasks st) mode q
    ++ visible toLowerCase [mkTask now (trim s) false] mode q
  /\ visible toLowerCase (tasks (create now s st)) FilterActive []
     = visible toLowerCase (tasks st) FilterActive []
       ++ [mkTask now (trim s) false]
  /\ visible toLowerCase (tasks (create now s st)) FilterCompleted []
     = visible toLowerCase (tasks st) FilterCompleted [].
Proof.
  intros Hne. rewrite tasks_create.
  destruct (trim s) as [|c r] eqn:E; [congruence|]. rewrite <- E.
  rewrite !filteredTasks_filter. rewrite !filter_app.
  split; [reflexivity|]. split; [reflexivity|].
  simpl. apply List.app_nil_r.
Qed.

End VisibleFurther.

Lemma blank_search_shows_mode_witness :
  whitespace_only (lit "  ")
  /\ visible asciiLower scenario FilterCompleted (lit "  ")
     = [mkTask 2 (lit "Write report") true]
  /\ visible asciiLower scenario FilterAll (lit "  ") = scenario.
Proof.
  assert (H : whitespace_only (lit "  ")) by (repeat constructor).
  split; [exact H|].
  exact (blank_search_shows_mode asciiLower scenario FilterCompleted _ H).
Defined.

Lemma created_task_is_shown_last_witness :
  trim (lit " Call mom ") <> []
  /\ visible asciiLower (tasks (create tick (lit " Call mom ") (mounted scenario)))
       FilterActive []
     = [mkTask 1 (lit "Buy milk") false; mkTask tick call_mom false].
Proof.
  assert (H : trim (lit " Call mom ") <> []) by (vm_compute; discriminate).
  split; [exact H|].
  exact (proj1 (proj2 (created_task_is_shown_last asciiLower tick _
                         (mounted scenario) FilterAll [] H))).
Defined.

(** ** A session and its reload *)

Lemma time_value_is_exact (now : Z) :
  Z.abs now <= time_value_max -> Z.abs now <= max_exact.
Proof.
  intros H. assert (E : time_value_max <= max_exact) by (vm_compute; discriminate).
  lia.
Qed.

Lemma exact_ids_map (g : Task -> Task) (l : list Task) :
  (forall t, id (g t) = id t) -> Forall exact_id l -> Forall exact_id (map g l).
Proof.
  intros Hg H. induction H as [|t l Ht Hl IH]; simpl; constructor.
  - unfold exact_id in *. rewrite Hg. exact Ht.
  - exact IH.
Qed.

Lemma exact_ids_filter (p : Task -> bool) (l : list Task) :
  Forall exact_id l -> Forall exact_id (List.filter p l).
Proof.
  rewrite !Forall_forall. intros H t Ht. apply filter_In in Ht.
  apply H. apply Ht.
Qed.

Lemma exact_ids_step (e : Event) (st : AppState) :
  clock_ok e = true ->
  Forall exact_id (tasks st) -> Forall exact_id (tasks (step e st)).
Proof.
  intros He H. destruct e; simpl in He |- *; try exact H.
  - rewrite tasks_handleAddTask.
    destruct (trim (input st)) as [|c r]; [exact H|].
    apply Forall_app. split; [exact H|]. constructor; [|constructor].
    unfold exact_id. simpl. apply time_value_is_exact.
    apply Z.leb_le. exact He.
  - rewrite tasks_handleUpdateTask.
    destruct (trim (editInput st)); [exact H|].
    apply exact_ids_map; [|exact H].
    intros t. destruct (id_is t (editingId st)); reflexivity.
  - rewrite tasks_handleDeleteTask. apply exact_ids_filter. exact H.
  - unfold handleToggleComplete. simpl.
    apply exact_ids_map; [|exact H].
    intros t. destruct (id t =? i); reflexivity.
  - unfold handleKey. destruct (editingId st) as [i|]; [|exact H].
    destruct (i =? 0); exact H.
Qed.

Lemma exact_ids_run (es : list Event) (st : AppState) :
  forallb clock_ok es = true ->
  Forall exact_id (tasks st) -> Forall exact_id (tasks (run es st)).
Proof.
  revert st. induction es as [|e es IH]; intros st Hes H; [exact H|].
  simpl in Hes. apply andb_true_iff in Hes. destruct Hes as [He Hes].
  unfold run. simpl. apply IH; [exact Hes|].
  apply exact_ids_step; assumption.
Qed.

(** X21. Whatever the user did, a reload shows the same collection:
    starting from a collection with exactly held ids, after any sequence
    of events whose submits read time values, loading what the persist
    effect wrote gives back the collection of the state. *)
Theorem session_survives_reload (l0 : list Task) (es : list Event) :
  Forall exact_id l0 ->
  forallb clock_ok es = true ->
  load (Some (persistEffect (run es (mounted l0))))
  = Returns (tasks (run es (mounted l0))).
Proof.
  intros H0 Hes.
  pose proof (exact_ids_run es (mounted l0) Hes H0) as H.
  exact (load_of_persist (tasks (run es (mounted l0))) H).
Qed.

Lemma session_survives_reload_witness :
  Forall exact_id scenario
  /\ forallb clock_ok session = true
  /\ load (Some (persistEffect (run session (mounted scenario))))
     = Returns [mkTask 1 (lit "Buy oat milk") false;
                mkTask tick (lit "Water plants") true;
                mkTask (tick + 1) (lit "Pay rent") false].
Proof.
  assert (H1 : Forall exact_id scenario).
  { repeat constructor; vm_compute; discriminate. }
  assert (H2 : forallb clock_ok session = true) by reflexivity.
  split; [exact H1|]. split; [exact H2|].
  exact (session_survives_reload scenario session H1 H2).
Defined.

(** X22. Two different collections are never stored as the same string:
    on collections with exactly held ids, what [persist] writes
    determines the collection. *)
Theorem persist_injective (l1 l2 : list Task) :
  Forall exact_id l1 -> Forall exact_id l2 ->
  persist l1 = persist l2 -> l1 = l2.
Proof.
  intros H1 H2 E.
  pose proof (load_of_persist l1 H1) as E1.
  pose proof (load_of_persist l2 H2) as E2.
  rewrite E in E1. rewrite E1 in E2. injection E2 as E2. exact E2.
Qed.

Lemma persist_injective_witness :
  Forall exact_id scenario /\ Forall exact_id scenario
  /\ persist scenario = persist scenario /\ scenario = scenario.
Proof.
  assert (H : Forall exact_id scenario).
  { repeat constructor; vm_compute; discriminate. }
  split; [exact H|]. split; [exact H|]. split; [reflexivity|].
  exact (persist_injective scenario scenario H H eq_refl).
Defined.

(** ** Create and delete, rename and rename *)

(** X23. Deleting a task right after creating it, by the id it was
    given, gives back the collection before, provided no stored task
    already carried that clock value as its id. *)
Theorem create_then_delete (now : Z) (s : jsstring) (st : AppState) :
  ~ In now (ids (tasks st)) ->
  tasks (delete now (create now s st)) = tasks st.
Proof.
  intros Hfresh. unfold delete. rewrite tasks_handleDeleteTask, tasks_create.
  assert (Hkeep : List.filter (fun t => negb (id t =? now)) (tasks st)
                  = tasks st).
  { apply filter_keeps_all. intros t Ht. apply negb_true_iff, Z.eqb_neq.
    intros E. apply Hfresh. rewrite <- E. unfold ids. apply in_map. exact Ht. }
  destruct (trim s) as [|c r]; [exact Hkeep|].
  rewrite filter_app, Hkeep. simpl. rewrite Z.eqb_refl. simpl.
  apply List.app_nil_r.
Qed.

Lemma create_then_delete_witness :
  ~ In tick (ids (tasks (mounted scenario)))
  /\ tasks (delete tick (create tick call_mom (mounted scenario))) = scenario.
Proof.
  assert (H : ~ In tick (ids (tasks (mounted scenario)))).
  { simpl. unfold tick. intuition lia. }
  split; [exact H | exact (create_then_delete tick call_mom (mounted scenario) H)].
Defined.

(** X24. Of two successive renames of the same id the last one wins,
    when its text is not blank: the collection is the one the second
    rename alone gives. *)
Theorem rename_last_wins (i : Z) (s1 s2 : jsstring) (st : AppState) :
  trim s2 <> [] ->
  tasks (rename i s2 (rename i s1 st)) = tasks (rename i s2 st).
Proof.
  intros Hne. rewrite !tasks_rename.
  destruct (trim s2) as [|c2 r2] eqn:E2; [congruence|]. rewrite <- E2.
  destruct (trim s1) as [|c1 r1] eqn:E1; [reflexivity|]. rewrite <- E1.
  rewrite map_map. apply map_ext. intros [k y c]. simpl.
  destruct (k =? i) eqn:Ek; simpl; rewrite Ek; reflexivity.
Qed.

Lemma rename_last_wins_witness :
  trim (lit "second") <> []
  /\ tasks (rename 1 (lit "second") (rename 1 (lit "first") (mounted scenario)))
     = [mkTask 1 (lit "second") false; mkTask 2 (lit "Write report") true].
Proof.
  assert (H : trim (lit "second") <> []) by (vm_compute; discriminate).
  split; [exact H|].
  exact (rename_last_wins 1 (lit "first") _ (mounted scenario) H).
Defined.

(** X25. A submit of the edit form while no row is in edit mode changes
    no task, whatever the edit input holds, and leaves the editor
    closed on an empty input. *)
Theorem save_without_editor (st : AppState) :
  editingId st = None ->
  tasks (handleUpdateTask st) = tasks st
  /\ idle (handleUpdateTask st).
Proof.
  intros H. split.
  - rewrite tasks_handleUpdateTask, H.
    destruct (trim (editInput st)); [reflexivity|].
    apply map_fixes. intros t _. reflexivity.
  - unfold handleUpdateTask.
    destruct (length (trim (editInput st)) =? 0)%nat; split; reflexivity.
Qed.

Lemma save_without_editor_witness :
  editingId (setEditInput call_mom (mounted scenario)) = None
  /\ tasks (handleUpdateTask (setEditInput call_mom (mounted scenario)))
     = scenario.
Proof.
  assert (H : editingId (setEditInput call_mom (mounted scenario)) = None)
    by reflexivity.
  split; [exact H|].
  exact (proj1 (save_without_editor _ H)).
Defined.
